(** * fmplayer.player: the Spotify player, its queue watcher and its event watcher

    A shallow embedding of [src/fmplayer/player.py].  The Python code runs
    two greenlets ([queue_watcher], [event_watcher]) against one [Player],
    while libspotify calls back into the player from its own event loop.
    The embedding keeps one shared [World], writes every function of the
    module as a computation over it, and schedules the greenlets and the
    callbacks with an explicit step function. *)

From stdpp Require Import base strings gmap list.
From Stdlib Require Import Ascii QArith.
Close Scope Q_scope.
Open Scope Z_scope.
Set Warnings "-register-all".

(** ** Values and names taken from the libraries the module imports *)

(** [spotify.PlayerState]; [UNLOADED] and [LOADED] are what the specification
    calls Idle and Loading. *)
Inductive PlayerState := UNLOADED | LOADED | PLAYING | PAUSED.

(** [spotify.ConnectionState] *)
Inductive ConnectionState :=
  LOGGED_OUT | LOGGED_IN | DISCONNECTED | UNDEFINED | OFFLINE.

(** [spotify.SessionEvent], the two events the player listens to *)
Inductive SessionEvent := CONNECTION_STATE_UPDATED | END_OF_TRACK.

(** The exceptions that occur in the module. *)
Inductive Exn := LibError | ValueError | AttributeError | TypeError.

(** The audio sink classes: [spotify.AlsaSink] and [fmplayer.sinks.FakeSink]. *)
Inductive SinkClass := AlsaSink | FakeSink.

(** Logging levels used by [logger]. *)
Inductive Level := DEBUG | INFO | ERROR.

(** The two module-level [threading.Event] objects. *)
Inductive EventId := LOGGED_IN_EVENT | STOP_EVENT.

(** The bound methods registered as session callbacks. *)
Inductive Callback := on_connection_state_updated_cb | on_track_of_end_cb.

(** Python values as [json.loads] returns them and [json.dumps] takes them.
    A dict keeps its items in source order; a later item with the same key
    overrides an earlier one. *)
Inductive PyVal :=
| PyNone
| PyBool (b : bool)
| PyInt (n : Z)
| PyFloat (lexeme : string)
| PyStr (s : string)
| PyList (items : list PyVal)
| PyDict (items : list (string * PyVal)).

(** [PLAYLIST_KEY = 'fm:player:queue'] *)
Definition PLAYLIST_KEY : string := "fm:player:queue".

(** An item yielded by [pubsub.listen()]: its ['type'] and its ['data']. *)
Record Item := mkItem { item_type : string; item_data : string }.

(** Everything the module does to the outside, in the order it happens.
    [Log] keeps the level and the message template of a [logger] call. *)
Inductive Action :=
| Log (level : Level) (template : string)
| ConfigLoadKey (key : string)
| SessionCreate
| SessionOn (ev : SessionEvent) (cb : Callback)
| EventLoopStart
| SessionLogin (user password : string)
| InstallSink (cls : SinkClass)
| GetTrack (uri : option string)
| TrackLoad
| PlayerLoad
| PlayerPlay
| PlayerPause
| PlayerUnload
| EventSet (ev : EventId)
| EventClear (ev : EventId)
| EventWait (ev : EventId)
| RedisLlen (key : string)
| RedisLpop (key : string) (popped : option string)
| RedisSubscribe (channel : string)
| RedisPublish (channel : string) (message : PyVal)
| Sleep (seconds : Q).

(** ** The libraries behind the player

    libspotify is not part of the module.  Its calls are parameters: each
    takes the library's internal state and returns the error it reports, if
    any, with the new internal state. *)
Class Libspotify := {
  Lib : Type;
  Track : Type;
  (** [session.get_track(uri)] *)
  sp_get_track : option string -> Lib -> (Exn + Track) * Lib;
  (** [Track.load()] *)
  sp_track_load : Track -> Lib -> (Exn + Track) * Lib;
  (** [sp_session_player_load] *)
  sp_player_load : Track -> Lib -> option Exn * Lib;
  (** [sp_session_player_play(session, play)] *)
  sp_player_play : bool -> Lib -> option Exn * Lib;
  (** [sp_session_player_unload] *)
  sp_player_unload : Lib -> option Exn * Lib;
}.

(** [json.loads] is a parameter as well: a decoder returns the decoded value
    or raises. *)
Class JsonDecoder := { json_loads : string -> Exn + PyVal }.

Section Model.
Context `{Libspotify} `{JsonDecoder}.

(** ** The shared world *)
Record World := mkWorld {
  lib : Lib;                                (* libspotify's own state *)
  player_state : PlayerState;               (* session.player.state *)
  connection_state : ConnectionState;       (* session.connection.state *)
  logged_in : bool;                         (* LOGGED_IN_EVENT's flag *)
  stop : bool;                              (* STOP_EVENT's flag *)
  redis_lists : gmap string (list string);  (* the lists held by redis *)
  entropy : nat -> Z;                       (* the random module's source *)
  draws : nat;                              (* numbers drawn so far *)
  trace : list Action;                      (* actions so far, oldest first *)
}.

Definition set_lib (l : Lib) (w : World) : World :=
  mkWorld l (player_state w) (connection_state w) (logged_in w) (stop w)
          (redis_lists w) (entropy w) (draws w) (trace w).

Definition set_player_state (p : PlayerState) (w : World) : World :=
  mkWorld (lib w) p (connection_state w) (logged_in w) (stop w)
          (redis_lists w) (entropy w) (draws w) (trace w).

Definition set_connection_state (c : ConnectionState) (w : World) : World :=
  mkWorld (lib w) (player_state w) c (logged_in w) (stop w)
          (redis_lists w) (entropy w) (draws w) (trace w).

Definition set_flag (ev : EventId) (b : bool) (w : World) : World :=
  match ev with
  | LOGGED_IN_EVENT =>
      mkWorld (lib w) (player_state w) (connection_state w) b (stop w)
              (redis_lists w) (entropy w) (draws w) (trace w)
  | STOP_EVENT =>
      mkWorld (lib w) (player_state w) (connection_state w) (logged_in w) b
              (redis_lists w) (entropy w) (draws w) (trace w)
  end.

Definition set_redis_lists (r : gmap string (list string)) (w : World) : World :=
  mkWorld (lib w) (player_state w) (connection_state w) (logged_in w) (stop w)
          r (entropy w) (draws w) (trace w).

Definition set_draws (n : nat) (w : World) : World :=
  mkWorld (lib w) (player_state w) (connection_state w) (logged_in w) (stop w)
          (redis_lists w) (entropy w) n (trace w).

Definition emit (a : Action) (w : World) : World :=
  mkWorld (lib w) (player_state w) (connection_state w) (logged_in w) (stop w)
          (redis_lists w) (entropy w) (draws w) (trace w ++ [a]).

Definition is_set (ev : EventId) (w : World) : bool :=
  match ev with LOGGED_IN_EVENT => logged_in w | STOP_EVENT => stop w end.

(** ** Computations

    A computation runs on the world until it returns, raises, or blocks in
    [Event.wait()]; a blocked computation carries what remains to be done
    once the event is set. *)
Inductive Run (A : Type) : Type :=
| Done (a : A) (w : World)
| Failed (e : Exn) (w : World)
| Blocked (ev : EventId) (w : World) (k : World -> Run A).
Arguments Done {A} a w.
Arguments Failed {A} e w.
Arguments Blocked {A} ev w k.

Definition M (A : Type) : Type := World -> Run A.

Definition ret {A} (a : A) : M A := fun w => Done a w.
Definition raise {A} (e : Exn) : M A := fun w => Failed e w.

Fixpoint run_bind {A B} (r : Run A) (f : A -> M B) : Run B :=
  match r with
  | Done a w => f a w
  | Failed e w => Failed e w
  | Blocked ev w k => Blocked ev w (fun w' => run_bind (k w') f)
  end.

Definition bind {A B} (m : M A) (f : A -> M B) : M B :=
  fun w => run_bind (m w) f.

(** [try: body except <caught>: handler else: orelse].  [except e] is the
    handler of the clause that matches [e], if one does. *)
Fixpoint run_try {A B} (r : Run A) (except : Exn -> option (M B))
    (orelse : A -> M B) : Run B :=
  match r with
  | Done a w => orelse a w
  | Failed e w => match except e with Some h => h w | None => Failed e w end
  | Blocked ev w k => Blocked ev w (fun w' => run_try (k w') except orelse)
  end.

Definition try_except_else {A B} (body : M A) (except : Exn -> option (M B))
    (orelse : A -> M B) : M B :=
  fun w => run_try (body w) except orelse.

(** The world a run stopped in. *)
Definition world_of {A} (r : Run A) : World :=
  match r with Done _ w => w | Failed _ w => w | Blocked _ w _ => w end.

End Model.

Arguments Done {_ A} a w.
Arguments Failed {_ A} e w.
Arguments Blocked {_ A} ev w k.

Declare Scope py_scope.
Delimit Scope py_scope with py.
Notation "x <- m ;; k" := (bind m (fun x => k))
  (at level 100, m at next level, right associativity) : py_scope.
Notation "m ;; k" := (bind m (fun _ => k))
  (at level 100, right associativity) : py_scope.
Open Scope py_scope.

#[global] Instance PlayerState_eq_dec : EqDecision PlayerState.
Proof. solve_decision. Defined.

#[global] Instance ConnectionState_eq_dec : EqDecision ConnectionState.
Proof. solve_decision. Defined.

Section Player.
Context `{Libspotify} `{JsonDecoder}.

(** ** Primitive operations *)

Definition act (a : Action) : M unit := fun w => Done tt (emit a w).

(** [logger.debug], [logger.info], [logger.error] *)
Definition log (level : Level) (template : string) : M unit :=
  act (Log level template).

(** [threading.Event]: [set], [clear] and [wait]. *)
Definition event_set (ev : EventId) : M unit :=
  fun w => Done tt (set_flag ev true (emit (EventSet ev) w)).

Definition event_clear (ev : EventId) : M unit :=
  fun w => Done tt (set_flag ev false (emit (EventClear ev) w)).

Definition event_wait (ev : EventId) : M unit :=
  fun w =>
    let w' := emit (EventWait ev) w in
    if is_set ev w' then Done tt w' else Blocked ev w' (fun w'' => Done tt w'').

(** A libspotify call that returns a value or an error. *)
Definition lib_call {A} (call : Lib -> (Exn + A) * Lib) : M A :=
  fun w =>
    match call (lib w) with
    | (inl e, l) => Failed e (set_lib l w)
    | (inr a, l) => Done a (set_lib l w)
    end.

(** A libspotify call that returns an error code, raised when it is one. *)
Definition lib_check (call : Lib -> option Exn * Lib) : M unit :=
  fun w =>
    match call (lib w) with
    | (Some e, l) => Failed e (set_lib l w)
    | (None, l) => Done tt (set_lib l w)
    end.

Definition assign_player_state (p : PlayerState) : M unit :=
  fun w => Done tt (set_player_state p w).

Definition read_player_state : M PlayerState :=
  fun w => Done (player_state w) w.

Definition read_connection_state : M ConnectionState :=
  fun w => Done (connection_state w) w.

(** [self.session.get_track(uri)] and [.load()] on the track it returns. *)
Definition session_get_track (uri : option string) : M Track :=
  act (GetTrack uri);; lib_call (sp_get_track uri).

Definition track_load (t : Track) : M Track :=
  act TrackLoad;; lib_call (sp_track_load t).

(** Modelled from the spec: [session.player.load(track)] of the media backend
    (pyspotify, which is not among the module's sources).  The request goes
    to the library; when the library reports an error the request raises and
    [state] keeps its value, otherwise [state] becomes the state the request
    asks for.  The three requests below follow the same rule. *)
Definition player_load (t : Track) : M unit :=
  act PlayerLoad;; lib_check (sp_player_load t);; assign_player_state LOADED.

(** Modelled from the spec: [session.player.play()], which moves [state] to
    Playing when the library accepts it. *)
Definition player_play : M unit :=
  act PlayerPlay;; lib_check (sp_player_play true);; assign_player_state PLAYING.

(** Modelled from the spec: [session.player.pause()], which moves [state] to
    Paused when the library accepts it. *)
Definition player_pause : M unit :=
  act PlayerPause;; lib_check (sp_player_play false);; assign_player_state PAUSED.

(** Modelled from the spec: [session.player.unload()], which moves [state] to
    Idle when the library accepts it. *)
Definition player_unload : M unit :=
  act PlayerUnload;; lib_check sp_player_unload;; assign_player_state UNLOADED.

(** [s.uri] on a [str]: a [str] has no attribute of that name. *)
Definition str_uri (s : string) : M string := raise AttributeError.

(** The list redis holds at [key]; a key that holds no list reads as the
    empty list. *)
Definition redis_list (key : string) (w : World) : list string :=
  default [] (redis_lists w !! key).

(** [redis.llen], [redis.lpop], [redis.publish].  [lpop] on an empty list
    returns [None]. *)
Definition redis_llen (key : string) : M Z :=
  fun w =>
    Done (Z.of_nat (length (redis_list key w))) (emit (RedisLlen key) w).

Definition redis_lpop (key : string) : M (option string) :=
  fun w =>
    match redis_list key w with
    | [] => Done None (emit (RedisLpop key None) w)
    | x :: rest =>
        Done (Some x)
             (set_redis_lists (<[key := rest]> (redis_lists w))
                              (emit (RedisLpop key (Some x)) w))
    end.

(** [redis.publish(channel, json.dumps(message))] *)
Definition redis_publish (channel : string) (message : PyVal) : M unit :=
  act (RedisPublish channel message).

(** [random.randint(a, b)]: [a] plus a number below [b - a + 1]. *)
Definition random_randint (a b : Z) : M Z :=
  fun w =>
    Done (a + entropy w (draws w) `mod` (b - a + 1))
         (set_draws (S (draws w)) w).

(** [gevent.sleep(seconds)] *)
Definition gevent_sleep (seconds : Q) : M unit := act (Sleep seconds).

(** A popped value as a Python value. *)
Definition py_uri (uri : option string) : PyVal :=
  match uri with Some s => PyStr s | None => PyNone end.

(** [json.loads(s)] *)
Definition loads (s : string) : M PyVal :=
  match json_loads s with inl e => raise e | inr v => ret v end.

(** [d.get(key)] on a dict: the value of the last item with that key,
    [None] when there is none. *)
Definition dict_get (key : string) (items : list (string * PyVal)) : PyVal :=
  fold_left (fun found kv => if String.eqb (fst kv) key then snd kv else found)
            items PyNone.

(** [data.get(key)]: only a dict has [get]. *)
Definition py_get (data : PyVal) (key : string) : M PyVal :=
  match data with
  | PyDict items => ret (dict_get key items)
  | _ => raise AttributeError
  end.

(** [v in d] for a dict [d] with [str] keys: lists and dicts are unhashable. *)
Definition py_in {V} (v : PyVal) (d : gmap string V) : M bool :=
  match v with
  | PyList _ | PyDict _ => raise TypeError
  | PyStr s => ret (bool_decide (is_Some (d !! s)))
  | _ => ret false
  end.

(** [d.get(v)] for a dict [d] with [str] keys. *)
Definition py_lookup {V} (v : PyVal) (d : gmap string V) : option V :=
  match v with PyStr s => d !! s | _ => None end.

(** Calling what [d.get(v)] returned: [None] is not callable. *)
Definition py_call (function : option (M unit)) : M unit :=
  match function with Some f => f | None => raise TypeError end.

(** ** class Player *)

(** [Player.register_session_events] *)
Definition register_session_events : M unit :=
  act (SessionOn CONNECTION_STATE_UPDATED on_connection_state_updated_cb);;
  act (SessionOn END_OF_TRACK on_track_of_end_cb).

(** The [sinks] dict of [Player.__init__]. *)
Definition sinks : gmap string SinkClass :=
  {[ "alsa" := AlsaSink; "fake" := FakeSink ]}.

(** [Player.__init__] *)
Definition Player_init (user password key sink : string) : M unit :=
  log DEBUG "Configuring Spotify Session";;
  act (ConfigLoadKey key);;
  log DEBUG "Creating Session";;
  act SessionCreate;;
  register_session_events;;
  log DEBUG "Starting Spotify Event Loop";;
  act EventLoopStart;;
  log DEBUG "Waiting for Login to Complete...";;
  act (SessionLogin user password);;
  event_wait LOGGED_IN_EVENT;;
  log INFO "Settingw Audio Sink to: {0}";;
  act (InstallSink (default FakeSink (sinks !! sink))).

(** [Player.on_connection_state_updated] *)
Definition on_connection_state_updated : M unit :=
  state <- read_connection_state;;
  if decide (state = LOGGED_IN)
  then log INFO "Login Complete";; event_set LOGGED_IN_EVENT
  else ret tt.

(** [Player.on_track_of_end] *)
Definition on_track_of_end : M unit :=
  log DEBUG "Track End - Unloading";;
  player_unload;;
  log DEBUG "STOP_EVENT set";;
  event_set STOP_EVENT.

(** The exceptions named by the [except] clause of [Player.play]. *)
Definition play_catches (e : Exn) : bool :=
  match e with LibError | ValueError => true | _ => false end.

(** [Player.play] *)
Definition play (uri : option string) : M unit :=
  log INFO "Play Track: {0}";;
  try_except_else
    (track <- session_get_track uri;;
     track <- track_load track;;
     player_load track;;
     player_play)
    (fun e =>
       if play_catches e
       then Some (message <- str_uri "Unable to play: {0}";; log ERROR message)
       else None)
    (fun _ =>
       log DEBUG "STOP_EVENT cleared";;
       event_clear STOP_EVENT).

(** [Player.pause] *)
Definition pause : M unit :=
  state <- read_player_state;;
  if decide (state = PLAYING)
  then log INFO "Pausing Playback";; player_pause
  else log DEBUG "Cannot Pause - No Track Playing".

(** [Player.resume] *)
Definition resume : M unit :=
  state <- read_player_state;;
  if decide (state = PAUSED)
  then log INFO "Resuming Playback";; player_play
  else log DEBUG "Cannot Resume - Not in paused state".

(** ** The two watchers *)

(** The lifecycle messages [queue_watcher] publishes. *)
Definition play_event (uri : option string) : PyVal :=
  PyDict [("event", PyStr "play"); ("uri", py_uri uri)].

Definition end_event (uri : option string) : PyVal :=
  PyDict [("event", PyStr "end"); ("uri", py_uri uri)].

(** What [queue_watcher] does before its loop. *)
Definition queue_watcher_enter : M unit := log INFO "Watching Playlist".

(** One turn of the [while True] loop of [queue_watcher]. *)
Definition queue_watcher_body (channel : string) : M unit :=
  n <- redis_llen PLAYLIST_KEY;;
  (if bool_decide (n > 0)
   then
     uri <- redis_lpop PLAYLIST_KEY;;
     log DEBUG "Track popped of list: {0}";;
     play uri;;
     log DEBUG "Publish Play Event";;
     redis_publish channel (play_event uri);;
     log DEBUG "Waiting for {0} to Finish";;
     event_wait STOP_EVENT;;
     log DEBUG "Publish Stop Event";;
     redis_publish channel (end_event uri)
   else ret tt);;
  r <- random_randint 0 2;;
  gevent_sleep (inject_Z r * 0.001).

(** The [events] dict of [event_watcher]. *)
Definition events : gmap string (M unit) :=
  {[ "pause" := pause; "resume" := resume ]}.

(** What [event_watcher] does before its loop. *)
Definition event_watcher_enter (channel : string) : M unit :=
  log INFO "Starting Redis Event Loop";;
  act (RedisSubscribe channel).

(** The body of [for item in pubsub.listen()] in [event_watcher]. *)
Definition event_watcher_body (item : Item) : M unit :=
  log DEBUG "Got Event: {0}";;
  if String.eqb (item_type item) "message"
  then
    data <- loads (item_data item);;
    event <- py_get data "event";;
    known <- py_in event events;;
    if known
    then log DEBUG "Fire: {0}";; py_call (py_lookup event events)
    else ret tt
  else ret tt.

End Player.

(** ** The running program

    The queue watcher and the event watcher are greenlets; libspotify's
    event loop fires the session callbacks from its own thread.  One [step]
    gives one of them a turn. *)
Section Program.
Context `{Libspotify} `{JsonDecoder}.

Inductive Thread :=
| Fresh                                            (* not started yet *)
| Ready                                            (* at the head of its loop *)
| Parked (ev : EventId) (k : World -> Run unit)    (* inside [ev.wait()] *)
| Dead (e : Exn).                                  (* ended by an exception *)

Record Sys := mkSys {
  world : World;
  queue_thread : Thread;      (* the greenlet running [queue_watcher] *)
  event_thread : Thread;      (* the greenlet running [event_watcher] *)
}.

Inductive Input :=
| RunQueue                             (* the queue watcher gets a turn *)
| Deliver (item : Item)                (* [pubsub.listen()] yields [item] *)
| EndOfTrack                           (* the session fires END_OF_TRACK *)
| ConnectionUpdate (c : ConnectionState)  (* ... CONNECTION_STATE_UPDATED *)
| Push (uri : string).                 (* a producer appends to the playlist *)

(** Where a thread stands after a run of its code. *)
Definition settle (r : Run unit) : Thread :=
  match r with
  | Done _ _ => Ready
  | Failed e _ => Dead e
  | Blocked ev _ k => Parked ev k
  end.

(** A turn of a thread whose loop is [enter; while True: body]. *)
Definition turn (enter body : M unit) (t : Thread) (w : World) : Run unit :=
  match t with
  | Fresh => (enter;; body) w
  | Ready => body w
  | Parked ev k => if is_set ev w then k w else Blocked ev w k
  | Dead e => Failed e w
  end.

Definition rpush (key uri : string) (w : World) : World :=
  set_redis_lists (<[key := redis_list key w ++ [uri]]> (redis_lists w)) w.

Definition step (channel : string) (s : Sys) (i : Input) : Sys :=
  match i with
  | RunQueue =>
      let r := turn queue_watcher_enter (queue_watcher_body channel)
                    (queue_thread s) (world s) in
      mkSys (world_of r) (settle r) (event_thread s)
  | Deliver item =>
      let r := turn (event_watcher_enter channel) (event_watcher_body item)
                    (event_thread s) (world s) in
      mkSys (world_of r) (queue_thread s) (settle r)
  | EndOfTrack =>
      mkSys (world_of (on_track_of_end (world s)))
            (queue_thread s) (event_thread s)
  | ConnectionUpdate c =>
      mkSys (world_of (on_connection_state_updated
                         (set_connection_state c (world s))))
            (queue_thread s) (event_thread s)
  | Push uri =>
      mkSys (rpush PLAYLIST_KEY uri (world s)) (queue_thread s) (event_thread s)
  end.

Definition run (channel : string) (s : Sys) (inputs : list Input) : Sys :=
  fold_left (step channel) inputs s.

(** The program before either watcher has started. *)
Definition boot (w : World) : Sys := mkSys w Fresh Fresh.

(** The part of a turn of [queue_watcher] that follows [STOP_EVENT.wait()]. *)
Definition queue_watcher_rest (channel : string) (uri : option string) : M unit :=
  (log DEBUG "Publish Stop Event";;
   redis_publish channel (end_event uri));;
  r <- random_randint 0 2;;
  gevent_sleep (inject_Z r * 0.001).

(** What the library answers to the requests of the [try] body of
    [Player.play]: the error of resolving and loading [uri], if any, ... *)
Definition load_outcome (uri : option string) (l : Lib) : option Exn * Lib :=
  match sp_get_track uri l with
  | (inl e, l1) => (Some e, l1)
  | (inr t, l1) =>
      match sp_track_load t l1 with
      | (inl e, l2) => (Some e, l2)
      | (inr t', l2) => sp_player_load t' l2
      end
  end.

(** The requests the body makes on the way: each one is made when the one
    before it returned. *)
Definition attempt_requests (uri : option string) (l : Lib) : list Action :=
  GetTrack uri ::
  match sp_get_track uri l with
  | (inl _, _) => []
  | (inr t, l1) =>
      TrackLoad ::
      match sp_track_load t l1 with
      | (inl _, _) => []
      | (inr t', l2) =>
          PlayerLoad ::
          match sp_player_load t' l2 with
          | (Some _, _) => []
          | (None, _) => [PlayerPlay]
          end
      end
  end.

(** ... and the error of the whole body, the play request included. *)
Definition attempt_outcome (uri : option string) (l : Lib) : option Exn * Lib :=
  match load_outcome uri l with
  | (Some e, l') => (Some e, l')
  | (None, l') => sp_player_play true l'
  end.

(** ** Reading a trace *)

(** The messages published on the channel, oldest first. *)
Definition published (acts : list Action) : list PyVal :=
  omap (fun a => match a with RedisPublish _ m => Some m | _ => None end) acts.

(** The actions a run added to the trace of the world it started in. *)
Definition added (before after : World) : list Action :=
  drop (length (trace before)) (trace after).

(** What [lpop] returned, call after call. *)
Definition popped (acts : list Action) : list (option string) :=
  omap (fun a => match a with RedisLpop _ u => Some u | _ => None end) acts.

(** A play message followed by its end message, for each of [uris]. *)
Definition paired (uris : list (option string)) : list PyVal :=
  uris ≫= (fun u => [play_event u; end_event u]).

Definition is_error_log (a : Action) : bool :=
  match a with Log ERROR _ => true | _ => false end.

(** The requests made to the media backend. *)
Definition is_backend (a : Action) : bool :=
  match a with
  | GetTrack _ | TrackLoad | PlayerLoad | PlayerPlay | PlayerPause
  | PlayerUnload => true
  | _ => false
  end.

Definition requests (acts : list Action) : list Action :=
  List.filter is_backend acts.

(** [STOP_EVENT] is cleared before the play request is made. *)
Definition cleared_before_play (acts : list Action) : Prop :=
  exists pre post, acts = pre ++ PlayerPlay :: post /\ EventClear STOP_EVENT ∈ pre.

(** ** What holds along every run *)

(** A run that does not block and neither pops nor publishes. *)
Definition quiet {A} (w : World) (r : Run A) : Prop :=
  match r with
  | Blocked _ _ _ => False
  | _ => exists acts, trace (world_of r) = trace w ++ acts /\
                      published acts = [] /\ popped acts = []
  end.

Definition never_parked (t : Thread) : Prop :=
  match t with Parked _ _ => False | _ => True end.

(** Where the queue watcher stands, read off the trace: the messages
    published since the start are the pairs of the uris whose turn is over,
    then the play message of the uri being played, if one is. *)
Definition queue_ok (channel : string) (P0 : list PyVal)
    (Q0 : list (option string)) (t : Thread) (w : World) : Prop :=
  exists us,
    match t with
    | Fresh | Ready =>
        published (trace w) = P0 ++ paired us /\ popped (trace w) = Q0 ++ us
    | Parked ev k =>
        exists u, ev = STOP_EVENT /\
          (forall w', k w' = queue_watcher_rest channel u w') /\
          published (trace w) = P0 ++ paired us ++ [play_event u] /\
          popped (trace w) = Q0 ++ us ++ [u]
    | Dead e =>
        exists u, published (trace w) = P0 ++ paired us /\
                  popped (trace w) = Q0 ++ us ++ [u]
    end.

Definition sys_ok (channel : string) (P0 : list PyVal)
    (Q0 : list (option string)) (s : Sys) : Prop :=
  never_parked (event_thread s) /\
  queue_ok channel P0 Q0 (queue_thread s) (world s).

End Program.

(** ** A decoder and a backend to run the program on

    The theorems below hold for every decoder and every backend.  To run the
    program on concrete inputs, [json_text] decodes JSON texts and
    [small_catalogue] is a backend with a few tracks. *)
Module Json.

Definition quote : ascii := "034"%char.
Definition backslash : ascii := "092"%char.

Definition is_space (c : ascii) : bool :=
  match nat_of_ascii c with 32%nat | 9%nat | 10%nat | 13%nat => true | _ => false end.

Fixpoint skip_space (s : string) : string :=
  match s with
  | String c r => if is_space c then skip_space r else s
  | EmptyString => s
  end.

Definition is_digit (c : ascii) : bool :=
  let n := nat_of_ascii c in (48 <=? n)%nat && (n <=? 57)%nat.

(** The digits at the head of [s], and what follows them. *)
Fixpoint digits (s : string) : string * string :=
  match s with
  | String c r =>
      if is_digit c then let '(d, r') := digits r in (String c d, r') else (EmptyString, s)
  | EmptyString => (EmptyString, s)
  end.

Fixpoint digits_value_from (n : Z) (d : string) : Z :=
  match d with
  | String c r => digits_value_from (10 * n + (Z.of_nat (nat_of_ascii c) - 48)) r
  | EmptyString => n
  end.

Definition digits_value (d : string) : Z := digits_value_from 0 d.

Definition hex_value (c : ascii) : option Z :=
  let n := Z.of_nat (nat_of_ascii c) in
  if (48 <=? n) && (n <=? 57) then Some (n - 48)
  else if (65 <=? n) && (n <=? 70) then Some (n - 55)
  else if (97 <=? n) && (n <=? 102) then Some (n - 87)
  else None.

Definition byte (n : Z) : ascii := ascii_of_nat (Z.to_nat n).

(** A code point of the basic plane as UTF-8. *)
Definition utf8 (n : Z) : string :=
  if n <? 128 then String (byte n) EmptyString
  else if n <? 2048 then
    String (byte (192 + n / 64)) (String (byte (128 + n mod 64)) EmptyString)
  else
    String (byte (224 + n / 4096))
      (String (byte (128 + (n / 64) mod 64))
         (String (byte (128 + n mod 64)) EmptyString)).

(** The characters of a string literal after its opening quote. *)
Fixpoint string_body (s : string) : option (string * string) :=
  match s with
  | EmptyString => None
  | String c r =>
      if Ascii.eqb c quote then Some (EmptyString, r)
      else if Ascii.eqb c backslash then
        match r with
        | String e r1 =>
            let plain (x : ascii) :=
              match string_body r1 with
              | Some (t, r2) => Some (String x t, r2)
              | None => None
              end in
            match nat_of_ascii e with
            | 34%nat => plain quote
            | 92%nat => plain backslash
            | 47%nat => plain "/"%char
            | 98%nat => plain "008"%char
            | 102%nat => plain "012"%char
            | 110%nat => plain "010"%char
            | 114%nat => plain "013"%char
            | 116%nat => plain "009"%char
            | 117%nat =>
                match r1 with
                | String h1 (String h2 (String h3 (String h4 r2))) =>
                    match hex_value h1, hex_value h2, hex_value h3, hex_value h4,
                          string_body r2 with
                    | Some a, Some b, Some c', Some d, Some (t, r3) =>
                        Some (utf8 (4096 * a + 256 * b + 16 * c' + d) ++ t, r3)%string
                    | _, _, _, _, _ => None
                    end
                | _ => None
                end
            | _ => None
            end
        | EmptyString => None
        end
      else if (nat_of_ascii c <? 32)%nat then None
      else
        match string_body r with
        | Some (t, r1) => Some (String c t, r1)
        | None => None
        end
  end.

(** [s] without the prefix [p], when it starts with it. *)
Fixpoint after (p s : string) : option string :=
  match p, s with
  | EmptyString, _ => Some s
  | String a p', String b s' => if Ascii.eqb a b then after p' s' else None
  | String _ _, EmptyString => None
  end.

(** A number: an optional minus sign, an integer part without leading
    zeros, and optionally a fraction and an exponent.  It is an [int] when it
    has neither fraction nor exponent, a [float] otherwise. *)
Definition number (s : string) : option (PyVal * string) :=
  let '(neg, s1) := match after "-" s with Some r => (true, r) | None => (false, s) end in
  let '(int_part, s2) :=
    match s1 with
    | String "0" r => ("0"%string, r)
    | _ => digits s1
    end in
  if String.eqb int_part EmptyString then None else
  let '(frac, s3) :=
    match after "." s2 with
    | Some r => let '(d, r') := digits r in (Some d, r')
    | None => (None, s2)
    end in
  let '(exp, s4) :=
    match s3 with
    | String e r =>
        if Ascii.eqb e "e" || Ascii.eqb e "E" then
          let r0 := match r with
                    | String sg r' => if Ascii.eqb sg "+" || Ascii.eqb sg "-" then r' else r
                    | EmptyString => r
                    end in
          let '(d, r') := digits r0 in
          if String.eqb d EmptyString then (None, s3) else (Some d, r')
        else (None, s3)
    | EmptyString => (None, s3)
    end in
  match frac, exp with
  | Some EmptyString, _ => Some (PyInt (if neg then - digits_value int_part else digits_value int_part), s2)
  | None, None => Some (PyInt (if neg then - digits_value int_part else digits_value int_part), s3)
  | _, _ =>
      let consumed := (String.length s - String.length s4)%nat in
      Some (PyFloat (String.substring 0 consumed s), s4)
  end.

Fixpoint value (fuel : nat) (s : string) : option (PyVal * string) :=
  match fuel with
  | O => None
  | S fuel =>
      let s := skip_space s in
      match s with
      | EmptyString => None
      | String c r =>
          match nat_of_ascii c with
          | 123%nat (* { *) =>
              match skip_space r with
              | String "}" r' => Some (PyDict [], r')
              | r' => members fuel r' []
              end
          | 91%nat (* [ *) =>
              match skip_space r with
              | String "]" r' => Some (PyList [], r')
              | r' => elements fuel r' []
              end
          | 34%nat =>
              match string_body r with
              | Some (t, r') => Some (PyStr t, r')
              | None => None
              end
          | _ =>
              match after "null" s, after "true" s, after "false" s with
              | Some r', _, _ => Some (PyNone, r')
              | _, Some r', _ => Some (PyBool true, r')
              | _, _, Some r' => Some (PyBool false, r')
              | _, _, _ =>
                  match after "NaN" s, after "Infinity" s, after "-Infinity" s with
                  | Some r', _, _ => Some (PyFloat "NaN", r')
                  | _, Some r', _ => Some (PyFloat "Infinity", r')
                  | _, _, Some r' => Some (PyFloat "-Infinity", r')
                  | _, _, _ => number s
                  end
              end
          end
      end
  end
with elements (fuel : nat) (s : string) (seen : list PyVal) : option (PyVal * string) :=
  match fuel with
  | O => None
  | S fuel =>
      match value fuel s with
      | Some (v, r) =>
          match skip_space r with
          | String "," r' => elements fuel r' (seen ++ [v])
          | String "]" r' => Some (PyList (seen ++ [v]), r')
          | _ => None
          end
      | None => None
      end
  end
with members (fuel : nat) (s : string) (seen : list (string * PyVal)) : option (PyVal * string) :=
  match fuel with
  | O => None
  | S fuel =>
      match skip_space s with
      | String q r =>
          if Ascii.eqb q quote then
            match string_body r with
            | Some (key, r1) =>
                match skip_space r1 with
                | String ":" r2 =>
                    match value fuel r2 with
                    | Some (v, r3) =>
                        match skip_space r3 with
                        | String "," r4 => members fuel r4 (seen ++ [(key, v)])
                        | String "}" r4 => Some (PyDict (seen ++ [(key, v)]), r4)
                        | _ => None
                        end
                    | None => None
                    end
                | _ => None
                end
            | None => None
            end
          else None
      | EmptyString => None
      end
  end.

(** The whole text must be one value; anything else is a [ValueError]. *)
Definition decode (s : string) : Exn + PyVal :=
  match value (2 * String.length s + 2) s with
  | Some (v, r) =>
      match skip_space r with
      | EmptyString => inr v
      | _ => inl ValueError
      end
  | None => inl ValueError
  end.

(** [s] between double quotes. *)
Definition quoted (s : string) : string :=
  String quote (s ++ String quote EmptyString).

End Json.

Definition json_text : JsonDecoder := {| json_loads := Json.decode |}.

(** A backend whose links are the strings that start with [spotify:track:],
    where one track cannot be loaded and the library keeps the track its
    player holds. *)
Definition small_catalogue : Libspotify := {|
  Lib := option string;
  Track := string;
  sp_get_track uri l :=
    match uri with
    | Some u => if String.prefix "spotify:track:" u then (inr u, l) else (inl ValueError, l)
    | None => (inl ValueError, l)
    end;
  sp_track_load t l :=
    if String.eqb t "spotify:track:unavailable" then (inl LibError, l) else (inr t, l);
  sp_player_load t l := (None, Some t);
  sp_player_play _ l :=
    match l with Some _ => (None, l) | None => (Some LibError, l) end;
  sp_player_unload l := (None, None);
|}.

(** Worlds to run the program in: logged in, with [queue] as the playlist and
    nothing loaded, or with a track that is playing or paused. *)
Definition idle_world (queue : list string) : @World small_catalogue :=
  @mkWorld small_catalogue None UNLOADED LOGGED_IN true false
    {[ PLAYLIST_KEY := queue ]} (fun _ => 5) 0 [].

Definition playing_world : @World small_catalogue :=
  @mkWorld small_catalogue (Some "spotify:track:a") PLAYING LOGGED_IN true false
    ∅ (fun _ => 5) 0 [].

Definition paused_world : @World small_catalogue :=
  @mkWorld small_catalogue (Some "spotify:track:a") PAUSED LOGGED_IN true false
    ∅ (fun _ => 5) 0 [].

(** The control command that asks for [event], as it travels on the channel. *)
Definition command (event : string) : string :=
  "{" ++ Json.quoted "event" ++ ": " ++ Json.quoted event ++ "}".

(** ** Keeping count along a run *)
Section Ledger.
Context `{Libspotify} `{JsonDecoder}.

Definition is_end_of_track (i : Input) : bool :=
  match i with EndOfTrack => true | _ => false end.

(** How often the session fired END_OF_TRACK. *)
Definition track_ends (inputs : list Input) : nat :=
  length (List.filter is_end_of_track inputs).

(** The uris the producers appended, in order. *)
Definition pushed (inputs : list Input) : list string :=
  omap (fun i => match i with Push u => Some u | _ => None end) inputs.

(** What a player method called from the event watcher does outside. *)
Definition control_action (a : Action) : bool :=
  match a with Log _ _ | PlayerPause | PlayerPlay => true | _ => false end.

Definition control_or_subscribe (a : Action) : bool :=
  match a with RedisSubscribe _ => true | _ => control_action a end.

(** A run that does not block, adds only actions that [ok] accepts, and
    leaves both events, the connection state, the redis lists and the random
    source as they were. *)
Definition footprint (ok : Action -> bool) {A} (w : World) (r : Run A) : Prop :=
  match r with
  | Blocked _ _ _ => False
  | _ =>
      (exists acts, trace (world_of r) = trace w ++ acts /\
                    Forall (fun a => ok a = true) acts) /\
      logged_in (world_of r) = logged_in w /\
      stop (world_of r) = stop w /\
      connection_state (world_of r) = connection_state w /\
      redis_lists (world_of r) = redis_lists w /\
      entropy (world_of r) = entropy w /\
      draws (world_of r) = draws w
  end.


(** A sleep of at most two thousandths of a second. *)
Definition within_jitter (a : Action) : Prop :=
  match a with Sleep q => (0 <= q <= 0.002)%Q | _ => True end.

(** The books of a run from [w0] on [inputs]: the login flag is kept, the
    sleeps are short, every uri of the playlist and of the producers is
    either popped or still waiting, in order, and the queue watcher has popped
    at most one uri more than tracks have ended. *)
Definition ledger (w0 : World) (inputs : list Input) (s : Sys) : Prop :=
  (logged_in w0 = true -> logged_in (world s) = true) /\
  exists acts,
    trace (world s) = trace w0 ++ acts /\
    Forall within_jitter acts /\
    popped acts ++ (Some <$> redis_list PLAYLIST_KEY (world s)) =
      Some <$> (redis_list PLAYLIST_KEY w0 ++ pushed inputs) /\
    match queue_thread s with
    | Fresh | Ready => (length (popped acts) <= track_ends inputs)%nat
    | Parked _ _ =>
        if stop (world s)
        then (length (popped acts) <= track_ends inputs)%nat
        else (length (popped acts) <= S (track_ends inputs))%nat
    | Dead _ => (length (popped acts) <= S (track_ends inputs))%nat
    end.

End Ledger.

(** A backend that resolves and loads every uri but [None], and refuses every
    play or pause request; and a player in PLAYING over it. *)
Definition refusing_backend : Libspotify := {|
  Lib := unit;
  Track := string;
  sp_get_track uri l :=
    match uri with Some u => (inr u, l) | None => (inl TypeError, l) end;
  sp_track_load t l := (inr t, l);
  sp_player_load t l := (None, l);
  sp_player_play _ l := (Some LibError, l);
  sp_player_unload l := (None, l);
|}.

Definition refused_world : @World refusing_backend :=
  @mkWorld refusing_backend tt PLAYING LOGGED_IN true false ∅ (fun _ => 5) 0 [].

(** A world in which the session is not logged in yet. *)
Definition logged_out_world : @World small_catalogue :=
  @mkWorld small_catalogue None UNLOADED LOGGED_OUT false false ∅ (fun _ => 5) 0 [].

(** A play or end message as it travels on the channel. *)
Definition lifecycle_text (event uri : string) : string :=
  "{" ++ Json.quoted "event" ++ ": " ++ Json.quoted event ++ ", " ++
  Json.quoted "uri" ++ ": " ++ Json.quoted uri ++ "}".

(** * Properties *)

Section Proofs.
Context `{Libspotify} `{JsonDecoder}.

Ltac unfold_player :=
  unfold play, pause, resume, on_track_of_end, on_connection_state_updated,
    session_get_track, track_load, player_load, player_play, player_pause,
    player_unload, str_uri, log, act, event_set, event_clear,
    lib_call, lib_check, assign_player_state, read_player_state,
    read_connection_state, try_except_else, bind, ret, raise.

Ltac ask_lib :=
  cbn;
  match goal with
  | |- context [sp_get_track ?u ?l] => destruct (sp_get_track u l) as [[?|?] ?]
  | |- context [sp_track_load ?t ?l] => destruct (sp_track_load t l) as [[?|?] ?]
  | |- context [sp_player_load ?t ?l] => destruct (sp_player_load t l) as [[?|] ?]
  | |- context [sp_player_play ?b ?l] => destruct (sp_player_play b l) as [[?|] ?]
  | |- context [sp_player_unload ?l] => destruct (sp_player_unload l) as [[?|] ?]
  end.

Ltac open_world :=
  cbn [run_bind run_try play_catches fst snd];
  cbv beta iota delta
    [set_lib set_player_state set_connection_state set_flag set_redis_lists
     set_draws emit lib player_state connection_state logged_in stop
     redis_lists entropy draws trace is_set].

Ltac same_world := open_world; rewrite <- ?app_assoc; reflexivity.

Lemma play_success uri w l :
  attempt_outcome uri (lib w) = (None, l) ->
  play uri w =
    Done tt (mkWorld l PLAYING (connection_state w) (logged_in w) false
               (redis_lists w) (entropy w) (draws w)
               (trace w ++ [Log INFO "Play Track: {0}"; GetTrack uri; TrackLoad;
                            PlayerLoad; PlayerPlay;
                            Log DEBUG "STOP_EVENT cleared";
                            EventClear STOP_EVENT])).
Proof.
  unfold attempt_outcome, load_outcome. unfold_player.
  repeat ask_lib; intros [= <-] || (intros [=]); same_world.
Qed.

Lemma attempt_requests_backend uri l :
  Forall (fun a => is_backend a = true) (attempt_requests uri l).
Proof.
  unfold attempt_requests.
  destruct (sp_get_track uri l) as [[?|t] l1]; [repeat constructor|].
  destruct (sp_track_load t l1) as [[?|t'] l2]; [repeat constructor|].
  destruct (sp_player_load t' l2) as [[?|] ?]; repeat constructor.
Qed.

Lemma play_failure uri w e l :
  attempt_outcome uri (lib w) = (Some e, l) ->
  play uri w =
    Failed (if play_catches e then AttributeError else e)
      (mkWorld l (match fst (load_outcome uri (lib w)) with
                  | None => LOADED
                  | Some _ => player_state w
                  end)
             (connection_state w) (logged_in w) (stop w)
             (redis_lists w) (entropy w) (draws w)
             (trace w ++ Log INFO "Play Track: {0}" :: attempt_requests uri (lib w))).
Proof.
  unfold attempt_outcome, load_outcome, attempt_requests. unfold_player.
  repeat ask_lib; intros [= -> ->] || (intros [=]); destruct e; same_world.
Qed.

Ltac unfold_queue :=
  unfold queue_watcher_body, redis_llen, redis_lpop,
    redis_publish, random_randint, gevent_sleep, event_wait, log, act, bind, ret.

Lemma redis_list_emit key a w : redis_list key (emit a w) = redis_list key w.
Proof. reflexivity. Qed.

Lemma queue_watcher_rest_done channel uri w :
  queue_watcher_rest channel uri w =
    Done tt (mkWorld (lib w) (player_state w) (connection_state w) (logged_in w)
               (stop w) (redis_lists w) (entropy w) (S (draws w))
               (trace w ++ [Log DEBUG "Publish Stop Event";
                            RedisPublish channel (end_event uri);
                            Sleep (inject_Z (0 + entropy w (draws w) `mod` (2 - 0 + 1)) * 0.001)])).
Proof. unfold queue_watcher_rest. unfold_queue. same_world. Qed.

Lemma queue_watcher_body_empty channel w :
  redis_list PLAYLIST_KEY w = [] ->
  queue_watcher_body channel w =
    Done tt (mkWorld (lib w) (player_state w) (connection_state w) (logged_in w)
               (stop w) (redis_lists w) (entropy w) (S (draws w))
               (trace w ++ [RedisLlen PLAYLIST_KEY;
                            Sleep (inject_Z (0 + entropy w (draws w) `mod` (2 - 0 + 1)) * 0.001)])).
Proof.
  intros Hq. unfold_queue. rewrite Hq. cbn [length run_bind].
  rewrite bool_decide_eq_false_2 by (cbn; lia). same_world.
Qed.

Lemma queue_watcher_body_plays channel w u rest l :
  redis_list PLAYLIST_KEY w = u :: rest ->
  attempt_outcome (Some u) (lib w) = (None, l) ->
  exists k,
    queue_watcher_body channel w =
      Blocked STOP_EVENT
        (mkWorld l PLAYING (connection_state w) (logged_in w) false
           (<[PLAYLIST_KEY := rest]> (redis_lists w)) (entropy w) (draws w)
           (trace w ++ [RedisLlen PLAYLIST_KEY;
                        RedisLpop PLAYLIST_KEY (Some u);
                        Log DEBUG "Track popped of list: {0}";
                        Log INFO "Play Track: {0}"; GetTrack (Some u); TrackLoad;
                        PlayerLoad; PlayerPlay; Log DEBUG "STOP_EVENT cleared";
                        EventClear STOP_EVENT; Log DEBUG "Publish Play Event";
                        RedisPublish channel (play_event (Some u));
                        Log DEBUG "Waiting for {0} to Finish";
                        EventWait STOP_EVENT])) k /\
    forall w', k w' = queue_watcher_rest channel (Some u) w'.
Proof.
  intros Hq Hok. unfold_queue. rewrite Hq. cbn [length run_bind].
  rewrite bool_decide_eq_true_2 by (cbn [length]; lia).
  rewrite redis_list_emit, Hq. cbn [run_bind].
  erewrite play_success by (open_world; exact Hok).
  open_world. rewrite <- ?app_assoc.
  eexists; split; [reflexivity|]. intros w'. reflexivity.
Qed.

Lemma queue_watcher_body_raises channel w u rest e l :
  redis_list PLAYLIST_KEY w = u :: rest ->
  attempt_outcome (Some u) (lib w) = (Some e, l) ->
  queue_watcher_body channel w =
    Failed (if play_catches e then AttributeError else e)
      (mkWorld l (match fst (load_outcome (Some u) (lib w)) with
                  | None => LOADED
                  | Some _ => player_state w
                  end)
           (connection_state w) (logged_in w) (stop w)
           (<[PLAYLIST_KEY := rest]> (redis_lists w)) (entropy w) (draws w)
           (trace w ++ [RedisLlen PLAYLIST_KEY;
                        RedisLpop PLAYLIST_KEY (Some u);
                        Log DEBUG "Track popped of list: {0}";
                        Log INFO "Play Track: {0}"]
                    ++ attempt_requests (Some u) (lib w))).
Proof.
  intros Hq Hbad. unfold_queue. rewrite Hq. cbn [length run_bind].
  rewrite bool_decide_eq_true_2 by (cbn [length]; lia).
  rewrite redis_list_emit, Hq. cbn [run_bind].
  erewrite play_failure by (open_world; exact Hbad).
  same_world.
Qed.

Lemma pause_idle w :
  player_state w <> PLAYING ->
  pause w = Done tt (emit (Log DEBUG "Cannot Pause - No Track Playing") w).
Proof.
  intros Hs. unfold pause, read_player_state, log, act, bind. cbn [run_bind].
  destruct (decide (player_state w = PLAYING)); [done|reflexivity].
Qed.

Lemma pause_playing w :
  player_state w = PLAYING ->
  pause w =
    match sp_player_play false (lib w) with
    | (None, l) =>
        Done tt (mkWorld l PAUSED (connection_state w) (logged_in w) (stop w)
                   (redis_lists w) (entropy w) (draws w)
                   (trace w ++ [Log INFO "Pausing Playback"; PlayerPause]))
    | (Some e, l) =>
        Failed e (mkWorld l PLAYING (connection_state w) (logged_in w) (stop w)
                    (redis_lists w) (entropy w) (draws w)
                    (trace w ++ [Log INFO "Pausing Playback"; PlayerPause]))
    end.
Proof.
  intros Hs. unfold pause, read_player_state, bind. cbn [run_bind].
  destruct (decide (player_state w = PLAYING)); [|done].
  unfold_player. ask_lib; rewrite <- ?Hs; same_world.
Qed.

Lemma resume_idle w :
  player_state w <> PAUSED ->
  resume w = Done tt (emit (Log DEBUG "Cannot Resume - Not in paused state") w).
Proof.
  intros Hs. unfold resume, read_player_state, log, act, bind. cbn [run_bind].
  destruct (decide (player_state w = PAUSED)); [done|reflexivity].
Qed.

Lemma resume_paused w :
  player_state w = PAUSED ->
  resume w =
    match sp_player_play true (lib w) with
    | (None, l) =>
        Done tt (mkWorld l PLAYING (connection_state w) (logged_in w) (stop w)
                   (redis_lists w) (entropy w) (draws w)
                   (trace w ++ [Log INFO "Resuming Playback"; PlayerPlay]))
    | (Some e, l) =>
        Failed e (mkWorld l PAUSED (connection_state w) (logged_in w) (stop w)
                    (redis_lists w) (entropy w) (draws w)
                    (trace w ++ [Log INFO "Resuming Playback"; PlayerPlay]))
    end.
Proof.
  intros Hs. unfold resume, read_player_state, bind. cbn [run_bind].
  destruct (decide (player_state w = PAUSED)); [|done].
  unfold_player. ask_lib; rewrite <- ?Hs; same_world.
Qed.

Lemma on_track_of_end_run w :
  on_track_of_end w =
    match sp_player_unload (lib w) with
    | (None, l) =>
        Done tt (mkWorld l UNLOADED (connection_state w) (logged_in w) true
                   (redis_lists w) (entropy w) (draws w)
                   (trace w ++ [Log DEBUG "Track End - Unloading"; PlayerUnload;
                                Log DEBUG "STOP_EVENT set"; EventSet STOP_EVENT]))
    | (Some e, l) =>
        Failed e (mkWorld l (player_state w) (connection_state w) (logged_in w)
                    (stop w) (redis_lists w) (entropy w) (draws w)
                    (trace w ++ [Log DEBUG "Track End - Unloading"; PlayerUnload]))
    end.
Proof. unfold_player. ask_lib; same_world. Qed.

Lemma on_connection_state_updated_run w :
  on_connection_state_updated w =
    if decide (connection_state w = LOGGED_IN)
    then Done tt (mkWorld (lib w) (player_state w) (connection_state w) true
                    (stop w) (redis_lists w) (entropy w) (draws w)
                    (trace w ++ [Log INFO "Login Complete";
                                 EventSet LOGGED_IN_EVENT]))
    else Done tt w.
Proof.
  unfold on_connection_state_updated, read_connection_state, bind.
  cbn [run_bind]. destruct (decide _); [|reflexivity].
  unfold_player. same_world.
Qed.

Ltac quiet_done :=
  cbv beta; cbn [quiet world_of];
  first [ exists []; by rewrite app_nil_r
        | eexists; split; [reflexivity | done] ].

Lemma pause_quiet w : quiet w (pause w).
Proof.
  destruct (decide (player_state w = PLAYING)) as [Hs|Hs].
  - rewrite (pause_playing w Hs).
    destruct (sp_player_play false (lib w)) as [[e|] l]; quiet_done.
  - rewrite (pause_idle w Hs). quiet_done.
Qed.

Lemma resume_quiet w : quiet w (resume w).
Proof.
  destruct (decide (player_state w = PAUSED)) as [Hs|Hs].
  - rewrite (resume_paused w Hs).
    destruct (sp_player_play true (lib w)) as [[e|] l]; quiet_done.
  - rewrite (resume_idle w Hs). quiet_done.
Qed.

Lemma events_lookup s f :
  events !! s = Some f -> f = pause \/ f = resume.
Proof.
  unfold events. intros Hf.
  apply lookup_insert_Some in Hf as [[_ <-]|[_ Hf]]; [by left|].
  apply lookup_singleton_Some in Hf as [_ <-]. by right.
Qed.

Lemma quiet_after_emit {A} a w (r : Run A) :
  published [a] = [] -> popped [a] = [] -> quiet (emit a w) r -> quiet w r.
Proof.
  intros Hp Hq. destruct r; cbn; try done.
  all: intros (acts & -> & Hp' & Hq'); exists (a :: acts);
    rewrite <- app_assoc; split; [done|];
    change (a :: acts) with ([a] ++ acts);
    unfold published, popped in *; rewrite !omap_app, Hp, Hq, Hp', Hq'; done.
Qed.

Lemma event_watcher_body_quiet item w : quiet w (event_watcher_body item w).
Proof.
  unfold event_watcher_body, bind, log, act. cbn [run_bind].
  apply (quiet_after_emit (Log DEBUG "Got Event: {0}")); [done..|].
  set (w1 := emit _ w).
  destruct (String.eqb _ _); [|unfold ret; quiet_done].
  unfold loads. destruct (json_loads _) as [e|data]; [unfold raise; quiet_done|].
  unfold ret at 1. cbn [run_bind].
  unfold py_get.
  destruct data as [| | | | |items|fields]; try (unfold raise; cbn [run_bind]; quiet_done).
  unfold ret at 1. cbn [run_bind].
  unfold py_in.
  destruct (dict_get "event" fields) as [| | | |s| |];
    try (unfold raise, ret; cbn [run_bind]; quiet_done).
  unfold ret at 1. cbn [run_bind].
  case_bool_decide as Hin; [|unfold ret; quiet_done].
  cbn [run_bind]. apply (quiet_after_emit (Log DEBUG "Fire: {0}")); [done..|].
  unfold py_lookup, py_call. destruct Hin as [f Hf]. rewrite Hf.
  destruct (events_lookup _ _ Hf) as [->| ->]; [apply pause_quiet|apply resume_quiet].
Qed.

Lemma published_app l1 l2 : published (l1 ++ l2) = published l1 ++ published l2.
Proof. apply omap_app. Qed.

Lemma popped_app l1 l2 : popped (l1 ++ l2) = popped l1 ++ popped l2.
Proof. apply omap_app. Qed.

Lemma paired_snoc us u :
  paired (us ++ [u]) = paired us ++ [play_event u; end_event u].
Proof. unfold paired. rewrite bind_app. cbn. by rewrite ?app_nil_r. Qed.

Lemma backend_unobserved acts :
  Forall (fun a => is_backend a = true) acts ->
  published acts = [] /\ popped acts = [].
Proof.
  induction 1 as [|a acts Ha _ [IHp IHq]]; [done|].
  destruct a; try discriminate Ha; done.
Qed.

Lemma queue_ok_same channel P0 Q0 t w w' :
  published (trace w') = published (trace w) ->
  popped (trace w') = popped (trace w) ->
  queue_ok channel P0 Q0 t w -> queue_ok channel P0 Q0 t w'.
Proof.
  intros Hp Hq [us Hok]. exists us. rewrite Hp, Hq. exact Hok.
Qed.

Lemma quiet_same {A} w (r : Run A) :
  quiet w r ->
  published (trace (world_of r)) = published (trace w) /\
  popped (trace (world_of r)) = popped (trace w).
Proof.
  destruct r; cbn; try done.
  all: intros (acts & -> & Hp & Hq);
    rewrite published_app, popped_app, Hp, Hq, ?app_nil_r; done.
Qed.

Lemma quiet_settle w (r : Run unit) : quiet w r -> never_parked (settle r).
Proof. by destruct r. Qed.

Lemma queue_watcher_body_ok channel P0 Q0 w :
  queue_ok channel P0 Q0 Ready w ->
  queue_ok channel P0 Q0 (settle (queue_watcher_body channel w))
           (world_of (queue_watcher_body channel w)).
Proof.
  intros (us & Hp & Hq).
  destruct (redis_list PLAYLIST_KEY w) as [|u rest] eqn:Hl.
  - rewrite (queue_watcher_body_empty _ _ Hl). exists us. cbn.
    rewrite published_app, popped_app, Hp, Hq. cbn. by rewrite ?app_nil_r.
  - destruct (attempt_outcome (Some u) (lib w)) as [[e|] l] eqn:Ha.
    + rewrite (queue_watcher_body_raises _ _ _ _ _ _ Hl Ha).
      exists us, (Some u). cbn [world_of settle trace].
      destruct (backend_unobserved _ (attempt_requests_backend (Some u) (lib w)))
        as [Hbp Hbq].
      rewrite !published_app, !popped_app, Hp, Hq, Hbp, Hbq. cbn.
      by rewrite <- ?app_assoc, ?app_nil_r.
    + destruct (queue_watcher_body_plays channel _ _ _ _ Hl Ha) as (k & -> & Hk).
      exists us, (Some u). cbn.
      rewrite published_app, popped_app, Hp, Hq. cbn.
      by rewrite <- ?app_assoc.
Qed.

Lemma step_ok channel P0 Q0 s i :
  sys_ok channel P0 Q0 s -> sys_ok channel P0 Q0 (step channel s i).
Proof.
  intros [Hev Hq]. destruct i as [|item| |c|uri]; cbn [step].
  - (* the queue watcher runs *)
    split; [exact Hev|]. cbn [world queue_thread]. revert Hq.
    destruct (queue_thread s) as [| |ev k|e]; cbn [turn]; intros Hq.
    + unfold queue_watcher_enter, bind, log, act. cbn [run_bind].
      apply queue_watcher_body_ok.
      change (queue_ok channel P0 Q0 Ready (world s)) in Hq.
      revert Hq. apply queue_ok_same; cbn;
        [rewrite published_app|rewrite popped_app]; cbn; by rewrite ?app_nil_r.
    + by apply queue_watcher_body_ok.
    + destruct Hq as (us & u & -> & Hk & Hp & Hq).
      destruct (is_set STOP_EVENT (world s)) eqn:Hset.
      * rewrite Hk, queue_watcher_rest_done. exists (us ++ [u]). cbn.
        rewrite published_app, popped_app, Hp, Hq, paired_snoc. cbn.
        by rewrite <- ?app_assoc, ?app_nil_r.
      * exists us, u. done.
    + exact Hq.
  - (* an item arrives *)
    cbn [world queue_thread event_thread]. revert Hev.
    destruct (event_thread s) as [| |ev k|e]; cbn [turn]; intros Hev; try done.
    + assert (Hquiet : quiet (world s)
                ((event_watcher_enter channel;; event_watcher_body item) (world s))).
      { unfold event_watcher_enter, bind, log, act. cbn [run_bind].
        apply (quiet_after_emit (Log INFO "Starting Redis Event Loop")); [done..|].
        apply (quiet_after_emit (RedisSubscribe channel)); [done..|].
        apply event_watcher_body_quiet. }
      split; [by eapply quiet_settle|].
      destruct (quiet_same _ _ Hquiet) as [Hp' Hq']. by eapply queue_ok_same.
    + pose proof (event_watcher_body_quiet item (world s)) as Hquiet.
      split; [by eapply quiet_settle|].
      destruct (quiet_same _ _ Hquiet) as [Hp' Hq']. by eapply queue_ok_same.
  - (* a track ends *)
    split; [exact Hev|]. cbn [world queue_thread].
    revert Hq. rewrite on_track_of_end_run.
    destruct (sp_player_unload (lib (world s))) as [[e|] l];
      apply queue_ok_same; cbn;
      rewrite ?published_app, ?popped_app; cbn; by rewrite ?app_nil_r.
  - (* the connection changes *)
    split; [exact Hev|]. cbn [world queue_thread].
    revert Hq. rewrite on_connection_state_updated_run.
    destruct (decide _); apply queue_ok_same; cbn;
      rewrite ?published_app, ?popped_app; cbn; by rewrite ?app_nil_r.
  - (* a producer pushes *)
    split; [exact Hev|]. exact Hq.
Qed.

Lemma run_ok channel P0 Q0 inputs :
  forall s, sys_ok channel P0 Q0 s -> sys_ok channel P0 Q0 (run channel s inputs).
Proof.
  induction inputs as [|i inputs IH]; intros s Hs; [exact Hs|].
  cbn. apply IH. by apply step_ok.
Qed.

Lemma added_app w w' acts : trace w' = trace w ++ acts -> added w w' = acts.
Proof. unfold added. intros ->. apply drop_app_length. Qed.

Lemma load_failure_is_attempt_failure uri l e l' :
  load_outcome uri l = (Some e, l') -> attempt_outcome uri l = (Some e, l').
Proof. unfold attempt_outcome. by intros ->. Qed.

Lemma jitter_bound (x : Z) : 0 <= 0 + x `mod` (2 - 0 + 1) <= 2.
Proof. pose proof (Z.mod_pos_bound x (2 - 0 + 1)). lia. Qed.

Lemma dict_get_absent key fields :
  key ∉ fields.*1 -> dict_get key fields = PyNone.
Proof.
  unfold dict_get. generalize PyNone.
  induction fields as [|[k v] fields IH]; intros found Hk; [done|].
  cbn in *. apply not_elem_of_cons in Hk as [Hne Hk].
  destruct (String.eqb_spec k key); [congruence|]. by apply IH.
Qed.

(** C4. When resolving or loading the track fails in [play uri], whatever the
    error, [play] raises and leaves the player state and the flag of
    [STOP_EVENT] as they were: all it added to the trace is its first log
    line and requests to the backend, so it neither set nor cleared the
    event. *)
Theorem play_failure_keeps_state_and_signal uri w e l :
  load_outcome uri (lib w) = (Some e, l) ->
  exists e' w',
    play uri w = Failed e' w' /\
    player_state w' = player_state w /\
    stop w' = stop w /\
    exists asked,
      added w w' = Log INFO "Play Track: {0}" :: asked /\
      Forall (fun a => is_backend a = true) asked.
Proof.
  intros Hload.
  rewrite (play_failure uri w e l (load_failure_is_attempt_failure _ _ _ _ Hload)).
  do 2 eexists. split; [reflexivity|]. cbn [player_state stop].
  rewrite Hload. repeat split.
  exists (attempt_requests uri (lib w)). split.
  - by apply added_app.
  - apply attempt_requests_backend.
Qed.

(** C2, as amended. In a turn that pops [u], [STOP_EVENT] is cleared by [play]
    right after the backend took the play request and before the play
    message is published; when the attempt fails, the turn clears nothing and
    the flag keeps its value. *)
Theorem stop_event_cleared_after_play channel w u rest :
  redis_list PLAYLIST_KEY w = u :: rest ->
  let w' := world_of (queue_watcher_body channel w) in
  match fst (attempt_outcome (Some u) (lib w)) with
  | None =>
      added w w' =
        [RedisLlen PLAYLIST_KEY; RedisLpop PLAYLIST_KEY (Some u);
         Log DEBUG "Track popped of list: {0}"; Log INFO "Play Track: {0}";
         GetTrack (Some u); TrackLoad; PlayerLoad; PlayerPlay;
         Log DEBUG "STOP_EVENT cleared"; EventClear STOP_EVENT;
         Log DEBUG "Publish Play Event";
         RedisPublish channel (play_event (Some u));
         Log DEBUG "Waiting for {0} to Finish"; EventWait STOP_EVENT] /\
      stop w' = false
  | Some _ =>
      Forall (fun a => a <> EventClear STOP_EVENT) (added w w') /\
      stop w' = stop w
  end.
Proof.
  intros Hl w'. subst w'.
  destruct (attempt_outcome (Some u) (lib w)) as [[e|] l] eqn:Ha; cbn [fst].
  - rewrite (queue_watcher_body_raises _ _ _ _ _ _ Hl Ha). cbn [world_of stop].
    split; [|done]. erewrite added_app by reflexivity.
    apply Forall_app. split; [repeat constructor; discriminate|].
    eapply Forall_impl; [apply attempt_requests_backend|].
    intros a Ha' ->. discriminate.
  - destruct (queue_watcher_body_plays channel _ _ _ _ Hl Ha) as (k & -> & _).
    cbn [world_of stop]. split; [|done]. by apply added_app.
Qed.

(** C7. [pause] outside PLAYING and [resume] outside PAUSED return with the
    player state unchanged and without a request to the backend; in PLAYING,
    [pause] makes exactly one request, the pause, and in PAUSED, [resume]
    makes exactly one, the play. *)
Theorem pause_and_resume_are_guarded w :
  (player_state w <> PLAYING ->
     exists w', pause w = Done tt w' /\ player_state w' = player_state w /\
                requests (added w w') = []) /\
  (player_state w = PLAYING ->
     requests (added w (world_of (pause w))) = [PlayerPause]) /\
  (player_state w <> PAUSED ->
     exists w', resume w = Done tt w' /\ player_state w' = player_state w /\
                requests (added w w') = []) /\
  (player_state w = PAUSED ->
     requests (added w (world_of (resume w))) = [PlayerPlay]).
Proof.
  repeat split.
  - intros Hs. rewrite (pause_idle w Hs). eexists. split; [reflexivity|].
    split; [done|]. by erewrite added_app by reflexivity.
  - intros Hs. rewrite (pause_playing w Hs).
    destruct (sp_player_play false (lib w)) as [[e|] l];
      by erewrite added_app by reflexivity.
  - intros Hs. rewrite (resume_idle w Hs). eexists. split; [reflexivity|].
    split; [done|]. by erewrite added_app by reflexivity.
  - intros Hs. rewrite (resume_paused w Hs).
    destruct (sp_player_play true (lib w)) as [[e|] l];
      by erewrite added_app by reflexivity.
Qed.

(** C8. [on_track_of_end] asks the player to unload and only then sets
    [STOP_EVENT]: what it adds to the trace starts with the unload request,
    followed by nothing (the unload raised) or by the set.  When the unload
    returns, the event is set and a queue watcher parked in
    [STOP_EVENT.wait()] runs on at its next turn. *)
Theorem on_track_of_end_unloads_then_sets w :
  let w' := world_of (on_track_of_end w) in
  (exists rest,
     added w w' = Log DEBUG "Track End - Unloading" :: PlayerUnload :: rest /\
     (rest = [] \/ rest = [Log DEBUG "STOP_EVENT set"; EventSet STOP_EVENT])) /\
  (fst (sp_player_unload (lib w)) = None ->
     on_track_of_end w = Done tt w' /\
     added w w' = [Log DEBUG "Track End - Unloading"; PlayerUnload;
                   Log DEBUG "STOP_EVENT set"; EventSet STOP_EVENT] /\
     stop w' = true /\
     forall enter body k, turn enter body (Parked STOP_EVENT k) w' = k w').
Proof.
  cbv zeta. rewrite on_track_of_end_run.
  destruct (sp_player_unload (lib w)) as [[e|] l]; cbn [fst world_of].
  - split; [|done]. exists []. split; [|by left]. by apply added_app.
  - split.
    + eexists. split; [by apply added_app|by right].
    + intros _. repeat split. by apply added_app.
Qed.

(** C5, as amended. A data message whose payload decodes to a dict without an
    [event] key is dropped: only the log line happens and the event watcher
    stays in its loop.  A payload that [json.loads] rejects calls no player
    method either, but the error leaves [event_watcher] and ends it. *)
Theorem malformed_message_handling channel s item :
  event_thread s = Ready ->
  item_type item = "message" ->
  (forall fields,
     json_loads (item_data item) = inr (PyDict fields) ->
     "event" ∉ fields.*1 ->
     step channel s (Deliver item) =
       mkSys (emit (Log DEBUG "Got Event: {0}") (world s)) (queue_thread s) Ready) /\
  (forall e,
     json_loads (item_data item) = inl e ->
     step channel s (Deliver item) =
       mkSys (emit (Log DEBUG "Got Event: {0}") (world s)) (queue_thread s) (Dead e)).
Proof.
  intros Ht Hm. cbn [step]. rewrite Ht. cbn [turn].
  unfold event_watcher_body, bind, log, act. cbn [run_bind].
  rewrite Hm. cbn [String.eqb Ascii.eqb Bool.eqb]. unfold loads.
  split.
  - intros fields -> Hno. unfold ret. cbn [run_bind py_get].
    rewrite (dict_get_absent _ _ Hno). reflexivity.
  - intros e ->. reflexivity.
Qed.

(** C6. However the watchers, the callbacks and the producers take turns, the
    messages published since the start are, for each uri whose turn is over
    and in the order the uris were popped, its play message followed by its
    end message; after them comes at most the play message of the uri being
    played.  The last popped uri is the only one that can be without its
    pair: it is being played, or an exception ended its turn. *)
Theorem lifecycle_events_are_paired channel w inputs :
  let s := run channel (boot w) inputs in
  exists us last,
    popped (trace (world s)) = popped (trace w) ++ us ++ last /\
    ((last = [] /\
      published (trace (world s)) = published (trace w) ++ paired us) \/
     (exists u k,
        last = [u] /\ queue_thread s = Parked STOP_EVENT k /\
        published (trace (world s)) =
          published (trace w) ++ paired us ++ [play_event u]) \/
     (exists u e,
        last = [u] /\ queue_thread s = Dead e /\
        published (trace (world s)) = published (trace w) ++ paired us)).
Proof.
  cbv zeta.
  assert (Hboot : sys_ok channel (published (trace w)) (popped (trace w)) (boot w)).
  { split; [done|]. exists []. cbn. by rewrite !app_nil_r. }
  destruct (run_ok channel _ _ inputs _ Hboot) as [_ [us Hq]].
  destruct (queue_thread (run channel (boot w) inputs)) as [| |ev k|e] eqn:Ht.
  - exists us, []. rewrite app_nil_r. destruct Hq as [Hp Hq]. eauto.
  - exists us, []. rewrite app_nil_r. destruct Hq as [Hp Hq]. eauto.
  - destruct Hq as (u & -> & _ & Hp & Hq). exists us, [u]. split; [done|].
    right; left. eauto.
  - destruct Hq as (u & Hp & Hq). exists us, [u]. split; [done|].
    right; right. eauto.
Qed.

(** C9, as amended. A turn that finds the playlist empty pops nothing,
    publishes nothing and sleeps for 0, 1 or 2 thousandths of a second; a
    turn that popped a uri sleeps in the same way once its end message is
    published. *)
Theorem queue_watcher_sleeps_every_turn channel w :
  (redis_list PLAYLIST_KEY w = [] ->
     exists r w',
       0 <= r <= 2 /\
       queue_watcher_body channel w = Done tt w' /\
       added w w' = [RedisLlen PLAYLIST_KEY; Sleep (inject_Z r * 0.001)] /\
       redis_lists w' = redis_lists w) /\
  (forall u rest l,
     redis_list PLAYLIST_KEY w = u :: rest ->
     attempt_outcome (Some u) (lib w) = (None, l) ->
     exists w1 k,
       queue_watcher_body channel w = Blocked STOP_EVENT w1 k /\
       forall w2, exists r w3,
         0 <= r <= 2 /\
         k w2 = Done tt w3 /\
         added w2 w3 = [Log DEBUG "Publish Stop Event";
                        RedisPublish channel (end_event (Some u));
                        Sleep (inject_Z r * 0.001)]).
Proof.
  split.
  - intros Hl. rewrite (queue_watcher_body_empty _ _ Hl).
    do 2 eexists. split; [apply jitter_bound|]. split; [reflexivity|].
    split; [by apply added_app|done].
  - intros u rest l Hl Ha.
    destruct (queue_watcher_body_plays channel _ _ _ _ Hl Ha) as (k & -> & Hk).
    do 2 eexists. split; [reflexivity|]. intros w2.
    rewrite Hk, queue_watcher_rest_done.
    do 2 eexists. split; [apply jitter_bound|]. split; [reflexivity|].
    by apply added_app.
Qed.

(** C10. The constructor installs [AlsaSink] for the name alsa and
    [FakeSink] for the name fake and for every other name, and it does not
    raise: it installs the sink at once when the login is complete, and
    after [LOGGED_IN_EVENT.wait()] otherwise. *)
Theorem unknown_sink_falls_back_to_fake user password key sink w :
  exists cls,
    (sink = "alsa" -> cls = AlsaSink) /\
    (sink = "fake" -> cls = FakeSink) /\
    (sink <> "alsa" -> sink <> "fake" -> cls = FakeSink) /\
    (logged_in w = true ->
       exists w', Player_init user password key sink w = Done tt w' /\
                  last (trace w') = Some (InstallSink cls)) /\
    (logged_in w = false ->
       exists w1 k,
         Player_init user password key sink w = Blocked LOGGED_IN_EVENT w1 k /\
         forall w2, exists w3,
           k w2 = Done tt w3 /\
           added w2 w3 = [Log INFO "Settingw Audio Sink to: {0}"; InstallSink cls]).
Proof.
  exists (default FakeSink (sinks !! sink)).
  split; [by intros ->|]. split; [by intros ->|].
  split.
  { intros Ha Hf. unfold sinks.
    rewrite lookup_insert_ne by done. by rewrite lookup_singleton_ne. }
  unfold Player_init, register_session_events, event_wait, log, act, bind.
  cbn [run_bind]. generalize (default FakeSink (sinks !! sink)). intros cls.
  split.
  - intros Hin.
    replace (is_set LOGGED_IN_EVENT _) with true by (symmetry; exact Hin).
    cbn [run_bind]. eexists. split; [reflexivity|].
    cbn [emit trace]. apply last_snoc.
  - intros Hout.
    replace (is_set LOGGED_IN_EVENT _) with false by (symmetry; exact Hout).
    cbn [run_bind]. do 2 eexists. split; [reflexivity|].
    intros w2. eexists. split; [reflexivity|].
    apply added_app. cbn [emit trace]. by rewrite <- app_assoc.
Qed.

Lemma caught_error_escapes_play uri w e l :
  attempt_outcome uri (lib w) = (Some e, l) ->
  play_catches e = true ->
  exists w',
    play uri w = Failed AttributeError w' /\
    List.filter is_error_log (added w w') = [].
Proof.
  intros Ha He. rewrite (play_failure uri w e l Ha), He.
  eexists. split; [reflexivity|].
  erewrite added_app by reflexivity. cbn [List.filter is_error_log].
  pose proof (attempt_requests_backend uri (lib w)) as Hb.
  induction Hb as [|a acts Ha' _ IH]; [done|].
  cbn [List.filter]. destruct a; try discriminate Ha'; exact IH.
Qed.

Lemma failed_play_ends_the_turn channel w u rest e l :
  redis_list PLAYLIST_KEY w = u :: rest ->
  attempt_outcome (Some u) (lib w) = (Some e, l) ->
  play_catches e = true ->
  exists w',
    queue_watcher_body channel w = Failed AttributeError w' /\
    published (added w w') = [] /\
    popped (added w w') = [Some u].
Proof.
  intros Hl Ha He. rewrite (queue_watcher_body_raises _ _ _ _ _ _ Hl Ha), He.
  eexists. split; [reflexivity|].
  erewrite added_app by reflexivity.
  destruct (backend_unobserved _ (attempt_requests_backend (Some u) (lib w)))
    as [Hbp Hbq].
  by rewrite published_app, popped_app, Hbp, Hbq.
Qed.

Lemma empty_polls channel n :
  forall s,
    queue_thread s = Ready ->
    redis_list PLAYLIST_KEY (world s) = [] ->
    let s' := run channel s (replicate n RunQueue) in
    queue_thread s' = Ready /\
    redis_lists (world s') = redis_lists (world s) /\
    popped (trace (world s')) = popped (trace (world s)) /\
    published (trace (world s')) = published (trace (world s)).
Proof.
  induction n as [|n IH]; intros s Ht Hl; [done|].
  cbn [replicate run fold_left].
  assert (Hs1 : step channel s RunQueue =
                mkSys (world_of (queue_watcher_body channel (world s)))
                      Ready (event_thread s)).
  { cbn [step]. rewrite Ht. cbn [turn].
    by rewrite (queue_watcher_body_empty _ _ Hl). }
  rewrite (queue_watcher_body_empty _ _ Hl) in Hs1. cbn [world_of] in Hs1.
  rewrite Hs1.
  match goal with |- context [fold_left (step channel) _ ?s1] =>
    destruct (IH s1) as (Ht' & Hr' & Hq' & Hp'); [done|exact Hl|] end.
  unfold run in Ht', Hr', Hq', Hp'.
  split; [exact Ht'|]. rewrite Hr', Hq', Hp'. cbn [world redis_lists trace].
  rewrite popped_app, published_app. cbn. by rewrite !app_nil_r.
Qed.
(** ** What the event watcher touches *)

Ltac footprint_done :=
  cbv beta; cbn [footprint world_of];
  split;
  [ first [ exists []; split; [by rewrite app_nil_r | constructor]
          | eexists; split; [reflexivity | repeat constructor] ]
  | done ].

Lemma pause_footprint w : footprint control_action w (pause w).
Proof.
  destruct (decide (player_state w = PLAYING)) as [Hs|Hs].
  - rewrite (pause_playing w Hs).
    destruct (sp_player_play false (lib w)) as [[e|] l]; footprint_done.
  - rewrite (pause_idle w Hs). footprint_done.
Qed.

Lemma resume_footprint w : footprint control_action w (resume w).
Proof.
  destruct (decide (player_state w = PAUSED)) as [Hs|Hs].
  - rewrite (resume_paused w Hs).
    destruct (sp_player_play true (lib w)) as [[e|] l]; footprint_done.
  - rewrite (resume_idle w Hs). footprint_done.
Qed.

Lemma footprint_after_emit ok {A} a w (r : Run A) :
  ok a = true -> footprint ok (emit a w) r -> footprint ok w r.
Proof.
  intros Ha. destruct r; cbn; try done.
  all: intros [(acts & -> & Hacts) Hrest]; split; [|exact Hrest];
    exists (a :: acts); rewrite <- app_assoc; split; [done|by constructor].
Qed.

Lemma footprint_weaken (ok ok' : Action -> bool) {A} w (r : Run A) :
  (forall a, ok a = true -> ok' a = true) ->
  footprint ok w r -> footprint ok' w r.
Proof.
  intros Himp. destruct r; cbn; try done.
  all: intros [(acts & Ht & Hacts) Hrest]; split; [|exact Hrest];
    exists acts; split; [done|]; eapply Forall_impl; eauto.
Qed.

(** X1. Whatever item arrives, one pass of the event watcher's loop does not
    block and leaves [STOP_EVENT], [LOGGED_IN_EVENT], the connection state,
    the redis lists and the random source alone: all it does outside is log
    and ask the player to pause or to play. *)
Theorem event_watcher_body_footprint item w :
  footprint control_action w (event_watcher_body item w).
Proof.
  unfold event_watcher_body, bind, log, act. cbn [run_bind].
  apply (footprint_after_emit _ (Log DEBUG "Got Event: {0}")); [done|].
  set (w1 := emit _ w).
  destruct (String.eqb _ _); [|unfold ret; footprint_done].
  unfold loads. destruct (json_loads _) as [e|data]; [unfold raise; footprint_done|].
  unfold ret at 1. cbn [run_bind]. unfold py_get.
  destruct data as [| | | | |items|fields];
    try (unfold raise; cbn [run_bind]; footprint_done).
  unfold ret at 1. cbn [run_bind]. unfold py_in.
  destruct (dict_get "event" fields) as [| | | |s| |];
    try (unfold raise, ret; cbn [run_bind]; footprint_done).
  unfold ret at 1. cbn [run_bind].
  case_bool_decide as Hin; [|unfold ret; footprint_done].
  cbn [run_bind]. apply (footprint_after_emit _ (Log DEBUG "Fire: {0}")); [done|].
  unfold py_lookup, py_call. destruct Hin as [f Hf]. rewrite Hf.
  destruct (events_lookup _ _ Hf) as [->| ->];
    [apply pause_footprint|apply resume_footprint].
Qed.

Lemma events_lookup_cases e :
  events !! e =
    if decide (e = "pause") then Some pause
    else if decide (e = "resume") then Some resume else None.
Proof.
  unfold events. rewrite lookup_insert.
  destruct (decide ("pause" = e)) as [<-|Hp].
  - by rewrite decide_True.
  - rewrite decide_False by congruence. rewrite lookup_singleton.
    destruct (decide ("resume" = e)) as [<-|Hr].
    + by rewrite decide_True.
    + by rewrite decide_False by congruence.
Qed.

(** X2. A data message whose payload decodes to a dict with a string under
    [event] runs [pause] for pause, [resume] for resume, and nothing for any
    other string: after the two log lines the matching method is the whole
    of what happens, and for an unknown event the first log line is. *)
Theorem event_watcher_dispatch item w fields e :
  item_type item = "message" ->
  json_loads (item_data item) = inr (PyDict fields) ->
  dict_get "event" fields = PyStr e ->
  event_watcher_body item w =
    if decide (e = "pause")
    then pause (emit (Log DEBUG "Fire: {0}") (emit (Log DEBUG "Got Event: {0}") w))
    else if decide (e = "resume")
    then resume (emit (Log DEBUG "Fire: {0}") (emit (Log DEBUG "Got Event: {0}") w))
    else Done tt (emit (Log DEBUG "Got Event: {0}") w).
Proof.
  intros Hm Hl He.
  unfold event_watcher_body, bind, log, act. cbn [run_bind].
  rewrite Hm. cbn [String.eqb Ascii.eqb Bool.eqb]. unfold loads. rewrite Hl.
  unfold ret. cbn [run_bind py_get]. rewrite He.
  unfold ret, py_in, py_lookup, py_call. cbn [run_bind].
  rewrite events_lookup_cases.
  destruct (decide (e = "pause")) as [->|Hp].
  - rewrite bool_decide_eq_true_2 by eauto. reflexivity.
  - destruct (decide (e = "resume")) as [->|Hr].
    + rewrite bool_decide_eq_true_2 by eauto. reflexivity.
    + rewrite bool_decide_eq_false_2 by (intros [? ?]; discriminate). reflexivity.
Qed.

(** X3. The play and end messages that the queue watcher publishes come back
    to the event watcher on the same channel; they call no player method and
    leave it in its loop. *)
Theorem lifecycle_messages_are_ignored channel s item u :
  event_thread s = Ready ->
  item_type item = "message" ->
  json_loads (item_data item) = inr (play_event u) \/
  json_loads (item_data item) = inr (end_event u) ->
  step channel s (Deliver item) =
    mkSys (emit (Log DEBUG "Got Event: {0}") (world s)) (queue_thread s) Ready.
Proof.
  intros Ht Hm Hl. cbn [step]. rewrite Ht. cbn [turn].
  destruct Hl as [Hl|Hl].
  - rewrite (event_watcher_dispatch item (world s) _ "play" Hm Hl eq_refl).
    reflexivity.
  - rewrite (event_watcher_dispatch item (world s) _ "end" Hm Hl eq_refl).
    reflexivity.
Qed.

(** X4. A data message whose payload is JSON but no dict (a list, a number,
    a string, a boolean, null) ends the event watcher with [AttributeError],
    and a dict whose [event] is a list or a dict ends it with [TypeError]; no
    player method is called on the way. *)
Theorem ill_typed_payload_ends_event_watcher channel s item data :
  event_thread s = Ready ->
  item_type item = "message" ->
  json_loads (item_data item) = inr data ->
  ((forall fields, data <> PyDict fields) ->
     step channel s (Deliver item) =
       mkSys (emit (Log DEBUG "Got Event: {0}") (world s)) (queue_thread s)
             (Dead AttributeError)) /\
  (forall fields,
     data = PyDict fields ->
     (exists l, dict_get "event" fields = PyList l) \/
     (exists d, dict_get "event" fields = PyDict d) ->
     step channel s (Deliver item) =
       mkSys (emit (Log DEBUG "Got Event: {0}") (world s)) (queue_thread s)
             (Dead TypeError)).
Proof.
  intros Ht Hm Hl. cbn [step]. rewrite Ht. cbn [turn].
  unfold event_watcher_body, bind, log, act. cbn [run_bind].
  rewrite Hm. cbn [String.eqb Ascii.eqb Bool.eqb]. unfold loads. rewrite Hl.
  unfold ret. cbn [run_bind]. split.
  - intros Hno. destruct data; try reflexivity. by destruct (Hno items).
  - intros fields -> [[l He]|[d He]]; cbn [py_get run_bind]; rewrite He;
      unfold ret; reflexivity.
Qed.

(** X5. [pause] has no handler of its own and neither has the event watcher:
    when the player is playing and the backend refuses the pause request with
    an error, a pause command ends the event watcher with that error and the
    player is still playing. *)
Theorem refused_pause_ends_event_watcher channel s item fields e l :
  event_thread s = Ready ->
  item_type item = "message" ->
  json_loads (item_data item) = inr (PyDict fields) ->
  dict_get "event" fields = PyStr "pause" ->
  player_state (world s) = PLAYING ->
  sp_player_play false (lib (world s)) = (Some e, l) ->
  event_thread (step channel s (Deliver item)) = Dead e /\
  player_state (world (step channel s (Deliver item))) = PLAYING /\
  requests (added (world s) (world (step channel s (Deliver item)))) = [PlayerPause].
Proof.
  intros Ht Hm Hl He Hs Hb. cbn [step]. rewrite Ht. cbn [turn].
  rewrite (event_watcher_dispatch item (world s) fields "pause" Hm Hl He).
  rewrite decide_True by done.
  rewrite pause_playing by exact Hs. cbn [emit lib]. rewrite Hb.
  cbn [settle world_of world event_thread player_state].
  repeat split. by erewrite added_app by (cbn [emit trace]; rewrite <- ?app_assoc; reflexivity).
Qed.

(** ** More on [Player.play], [Player.pause] and [Player.resume] *)

(** X6. When the backend resolves, loads and takes the play request, [play]
    returns with the player playing and [STOP_EVENT] clear, whatever the
    flag was before; the connection and the playlist are as they were. *)
Theorem successful_play_starts_track_and_clears uri w l :
  attempt_outcome uri (lib w) = (None, l) ->
  exists w',
    play uri w = Done tt w' /\
    player_state w' = PLAYING /\
    stop w' = false /\
    lib w' = l /\
    logged_in w' = logged_in w /\
    redis_lists w' = redis_lists w /\
    requests (added w w') = [GetTrack uri; TrackLoad; PlayerLoad; PlayerPlay].
Proof.
  intros Ha. rewrite (play_success uri w l Ha). eexists. split; [reflexivity|].
  repeat split. by erewrite added_app by reflexivity.
Qed.

(** X7. The [except] clause of [play] names [LibError] and [ValueError] only:
    any other error of the backend leaves [play] as it is, nothing is logged
    at error level and [STOP_EVENT] keeps its flag. *)
Theorem other_errors_pass_through_play uri w e l :
  attempt_outcome uri (lib w) = (Some e, l) ->
  play_catches e = false ->
  exists w',
    play uri w = Failed e w' /\
    stop w' = stop w /\
    List.filter is_error_log (added w w') = [].
Proof.
  intros Ha He. rewrite (play_failure uri w e l Ha), He.
  eexists. split; [reflexivity|]. split; [reflexivity|].
  erewrite added_app by reflexivity. cbn [List.filter is_error_log].
  pose proof (attempt_requests_backend uri (lib w)) as Hb.
  induction Hb as [|a acts Ha' _ IH]; [done|].
  cbn [List.filter]. destruct a; try discriminate Ha'; exact IH.
Qed.

(** X8. Pausing a playing track and resuming it, with a backend that takes
    both requests, ends where it started: the player is playing again, after
    exactly one pause request and one play request. *)
Theorem pause_then_resume_plays_again w l1 l2 :
  player_state w = PLAYING ->
  sp_player_play false (lib w) = (None, l1) ->
  sp_player_play true l1 = (None, l2) ->
  exists w',
    (pause;; resume) w = Done tt w' /\
    player_state w' = PLAYING /\
    lib w' = l2 /\
    stop w' = stop w /\
    requests (added w w') = [PlayerPause; PlayerPlay].
Proof.
  intros Hs H1 H2. unfold bind. rewrite (pause_playing w Hs), H1.
  cbn [run_bind]. rewrite resume_paused by reflexivity. cbn [lib]. rewrite H2.
  eexists. split; [reflexivity|]. repeat split.
  by erewrite added_app by (cbn [trace]; rewrite <- ?app_assoc; reflexivity).
Qed.

(** X9. A second [pause] right after a first one asks nothing of the
    backend, and so does a second [resume]: the pair makes the one request
    of the first call. *)
Theorem repeated_pause_or_resume_asks_once w l :
  (player_state w = PLAYING ->
   sp_player_play false (lib w) = (None, l) ->
   exists w', (pause;; pause) w = Done tt w' /\
              player_state w' = PAUSED /\
              requests (added w w') = [PlayerPause]) /\
  (player_state w = PAUSED ->
   sp_player_play true (lib w) = (None, l) ->
   exists w', (resume;; resume) w = Done tt w' /\
              player_state w' = PLAYING /\
              requests (added w w') = [PlayerPlay]).
Proof.
  split; intros Hs Hb; unfold bind.
  - rewrite (pause_playing w Hs), Hb. cbn [run_bind].
    rewrite pause_idle by discriminate.
    eexists. split; [reflexivity|]. repeat split.
    by erewrite added_app by (cbn [emit trace]; rewrite <- ?app_assoc; reflexivity).
  - rewrite (resume_paused w Hs), Hb. cbn [run_bind].
    rewrite resume_idle by discriminate.
    eexists. split; [reflexivity|]. repeat split.
    by erewrite added_app by (cbn [emit trace]; rewrite <- ?app_assoc; reflexivity).
Qed.

(** ** The books of a run *)

Lemma track_ends_snoc inputs i :
  track_ends (inputs ++ [i]) =
    (track_ends inputs + (if is_end_of_track i then 1 else 0))%nat.
Proof.
  unfold track_ends. rewrite List.filter_app, length_app. cbn.
  by destruct (is_end_of_track i).
Qed.

Lemma pushed_snoc inputs i : pushed (inputs ++ [i]) = pushed inputs ++ pushed [i].
Proof. apply omap_app. Qed.

Lemma run_snoc channel s inputs i :
  run channel s (inputs ++ [i]) = step channel (run channel s inputs) i.
Proof. unfold run. by rewrite fold_left_app. Qed.

Lemma jitter_within x :
  within_jitter (Sleep (inject_Z (0 + x `mod` (2 - 0 + 1)) * 0.001)).
Proof.
  pose proof (jitter_bound x) as Hb. cbn [within_jitter].
  unfold Qle, Qmult, inject_Z. cbn [Qnum Qden]. split; lia.
Qed.

Lemma control_is_harmless a :
  control_or_subscribe a = true -> popped [a] = [] /\ within_jitter a.
Proof. by destruct a. Qed.

Lemma deliver_footprint channel item t w :
  never_parked t ->
  footprint control_or_subscribe w
    (turn (event_watcher_enter channel) (event_watcher_body item) t w).
Proof.
  destruct t as [| |ev k|e]; cbn [turn never_parked]; intros Hnp; [| |done|].
  - unfold event_watcher_enter, bind, log, act. cbn [run_bind].
    apply (footprint_after_emit _ (Log INFO "Starting Redis Event Loop")); [done|].
    apply (footprint_after_emit _ (RedisSubscribe channel)); [done|].
    eapply footprint_weaken; [|apply event_watcher_body_footprint].
    by intros a Ha; destruct a.
  - eapply footprint_weaken; [|apply event_watcher_body_footprint].
    by intros a Ha; destruct a.
  - cbn. split; [|done]. exists []. split; [by rewrite app_nil_r|constructor].
Qed.

Lemma redis_list_pop key rest l p c li st (m : gmap string (list string)) en d tr :
  redis_list key (mkWorld l p c li st (<[key := rest]> m) en d tr) = rest.
Proof. unfold redis_list. cbn [redis_lists]. by rewrite lookup_insert_eq. Qed.

Ltac ledger_lists :=
  repeat match goal with
         | |- Forall _ (_ ++ _) => apply Forall_app; split
         | |- Forall _ (_ :: _) => constructor
         | |- Forall _ [] => constructor
         | |- within_jitter (Sleep _) => apply jitter_within
         | |- within_jitter _ => exact I
         end; try assumption.

Lemma ledger_body channel w0 inputs s :
  queue_thread s = Ready ->
  ledger w0 inputs s ->
  ledger w0 (inputs ++ [RunQueue]) (step channel s RunQueue).
Proof.
  intros Hr (Hlog & acts & Ht & Hj & Hfifo & Hcount). rewrite Hr in Hcount.
  cbn [step]. rewrite Hr. cbn [turn].
  unfold ledger. rewrite track_ends_snoc, pushed_snoc. cbn [is_end_of_track pushed omap].
  rewrite Nat.add_0_r, app_nil_r.
  destruct (redis_list PLAYLIST_KEY (world s)) as [|u rest] eqn:Hl.
  - rewrite (queue_watcher_body_empty _ _ Hl).
    cbn [world world_of settle queue_thread]. split; [exact Hlog|].
    eexists. split; [cbn [trace]; rewrite Ht, <- app_assoc; reflexivity|].
    split; [ledger_lists|].
    rewrite popped_app. cbn [popped omap]. rewrite app_nil_r.
    split; [|exact Hcount].
    unfold redis_list in *. cbn [redis_lists]. by rewrite Hl.
  - destruct (attempt_outcome (Some u) (lib (world s))) as [[e|] l] eqn:Ha.
    + rewrite (queue_watcher_body_raises _ _ _ _ _ _ Hl Ha).
      cbn [world world_of settle queue_thread]. split; [exact Hlog|].
      eexists. split; [cbn [trace]; rewrite Ht, <- app_assoc; reflexivity|].
      destruct (backend_unobserved _ (attempt_requests_backend (Some u) (lib (world s))))
        as [_ Hbq].
      split.
      { ledger_lists.
        eapply Forall_impl; [apply attempt_requests_backend|].
        by intros a Hb; destruct a. }
      rewrite !popped_app, Hbq. cbn [popped omap]. rewrite app_nil_r.
      rewrite redis_list_pop. split.
      * rewrite <- Hfifo, <- app_assoc. reflexivity.
      * rewrite length_app. cbn. lia.
    + destruct (queue_watcher_body_plays channel _ _ _ _ Hl Ha) as (k & -> & Hk).
      cbn [world world_of settle queue_thread stop]. split; [exact Hlog|].
      eexists. split; [cbn [trace]; rewrite Ht, <- app_assoc; reflexivity|].
      split; [ledger_lists|].
      rewrite popped_app. cbn [popped omap].
      rewrite redis_list_pop. split.
      * rewrite <- Hfifo, <- app_assoc. reflexivity.
      * rewrite length_app. cbn. lia.
Qed.

Lemma ledger_step channel P0 Q0 w0 inputs s i :
  sys_ok channel P0 Q0 s ->
  ledger w0 inputs s ->
  ledger w0 (inputs ++ [i]) (step channel s i).
Proof.
  intros [Hev Hq] Hled. destruct i as [|item| |c|uri].
  - (* the queue watcher runs *)
    destruct (queue_thread s) as [| |ev k|e] eqn:Hthread.
    + (* its first turn: one log line, then a turn *)
      set (s1 := mkSys (emit (Log INFO "Watching Playlist") (world s)) Ready
                       (event_thread s)).
      assert (Hstep : step channel s RunQueue = step channel s1 RunQueue).
      { cbn [step]. rewrite Hthread. reflexivity. }
      rewrite Hstep. apply ledger_body; [done|].
      destruct Hled as (Hlog & acts & Ht & Hj & Hfifo & Hcount).
      rewrite Hthread in Hcount. split; [exact Hlog|].
      exists (acts ++ [Log INFO "Watching Playlist"]).
      split; [cbn; by rewrite Ht, <- app_assoc|].
      split; [ledger_lists|].
      rewrite popped_app. cbn [popped omap]. rewrite app_nil_r.
      split; [exact Hfifo|exact Hcount].
    + by apply ledger_body.
    + (* parked in STOP_EVENT.wait() *)
      destruct Hq as (us & u & -> & Hk & _ & _).
      destruct Hled as (Hlog & acts & Ht & Hj & Hfifo & Hcount).
      rewrite Hthread in Hcount.
      cbn [step]. rewrite Hthread. cbn [turn is_set].
      unfold ledger. rewrite track_ends_snoc, pushed_snoc.
      cbn [is_end_of_track pushed omap]. rewrite Nat.add_0_r, app_nil_r.
      destruct (stop (world s)) eqn:Hset.
      * rewrite Hk, queue_watcher_rest_done.
        cbn [world world_of settle queue_thread]. split; [exact Hlog|].
        eexists. split; [cbn [trace]; rewrite Ht, <- app_assoc; reflexivity|].
        split; [ledger_lists|].
        rewrite popped_app. cbn [popped omap]. rewrite app_nil_r.
        split; [exact Hfifo|exact Hcount].
      * cbn [world world_of settle queue_thread]. split; [exact Hlog|].
        exists acts. rewrite Hset. done.
    + (* ended *)
      destruct Hled as (Hlog & acts & Ht & Hj & Hfifo & Hcount).
      rewrite Hthread in Hcount.
      cbn [step]. rewrite Hthread. cbn [turn].
      unfold ledger. rewrite track_ends_snoc, pushed_snoc.
      cbn [is_end_of_track pushed omap world world_of settle queue_thread].
      rewrite Nat.add_0_r, app_nil_r. split; [exact Hlog|]. exists acts. done.
  - (* an item arrives *)
    destruct Hled as (Hlog & acts & Ht & Hj & Hfifo & Hcount).
    pose proof (deliver_footprint channel item _ (world s) Hev) as Hfoot.
    cbn [step]. unfold ledger. rewrite track_ends_snoc, pushed_snoc.
    cbn [is_end_of_track pushed omap world queue_thread].
    rewrite Nat.add_0_r, app_nil_r.
    destruct (turn _ _ _ _) as [a w'|e w'|ev w' k]; [| |done].
    all: destruct Hfoot as ((more & Hmore & Hok) & Hli & Hst & _ & Hrl & _);
      cbn [world_of] in *;
      (split; [by rewrite Hli|]);
      exists (acts ++ more);
      (split; [by rewrite Hmore, Ht, <- app_assoc|]);
      assert (Hquiet : popped more = [] /\ Forall within_jitter more)
        by (clear -Hok; induction Hok as [|x more Hx _ [IHp IHj]];
            [done|destruct (control_is_harmless x Hx) as [Hp Hw];
             split; [by destruct x|by constructor]]);
      destruct Hquiet as [Hpm Hjm];
      (split; [by apply Forall_app|]);
      rewrite popped_app, Hpm, app_nil_r;
      unfold redis_list in *; rewrite Hrl, Hst; done.
  - (* a track ends *)
    destruct Hled as (Hlog & acts & Ht & Hj & Hfifo & Hcount).
    cbn [step]. unfold ledger. rewrite track_ends_snoc, pushed_snoc.
    cbn [is_end_of_track pushed omap world queue_thread]. rewrite app_nil_r.
    rewrite on_track_of_end_run.
    destruct (sp_player_unload (lib (world s))) as [[e|] l]; cbn [world_of].
    all: (split; [exact Hlog|]);
      eexists; (split; [cbn [trace]; rewrite Ht, <- app_assoc; reflexivity|]);
      (split; [ledger_lists|]);
      rewrite popped_app; cbn [popped omap stop]; rewrite app_nil_r;
      (split; [exact Hfifo|]);
      destruct (queue_thread s); try destruct (stop (world s)); lia.
  - (* the connection changes *)
    destruct Hled as (Hlog & acts & Ht & Hj & Hfifo & Hcount).
    cbn [step]. unfold ledger. rewrite track_ends_snoc, pushed_snoc.
    cbn [is_end_of_track pushed omap world queue_thread].
    rewrite Nat.add_0_r, app_nil_r.
    rewrite on_connection_state_updated_run.
    destruct (decide _); cbn [world_of set_connection_state logged_in trace stop].
    + split; [done|].
      eexists. split; [rewrite Ht, <- app_assoc; reflexivity|].
      split; [ledger_lists|].
      rewrite popped_app. cbn [popped omap]. rewrite app_nil_r.
      split; [exact Hfifo|exact Hcount].
    + split; [exact Hlog|]. exists acts. done.
  - (* a producer pushes *)
    destruct Hled as (Hlog & acts & Ht & Hj & Hfifo & Hcount).
    cbn [step]. unfold ledger. rewrite track_ends_snoc, pushed_snoc.
    cbn [is_end_of_track pushed omap world queue_thread].
    rewrite Nat.add_0_r.
    split; [exact Hlog|]. exists acts. split; [exact Ht|]. split; [exact Hj|].
    split; [|exact Hcount].
    unfold rpush, set_redis_lists. rewrite redis_list_pop.
    change (pushed [Push uri]) with [uri].
    rewrite fmap_app, app_assoc, Hfifo.
    rewrite (app_assoc (redis_list PLAYLIST_KEY w0)). rewrite (fmap_app _ (_ ++ _)). reflexivity.
Qed.

Lemma run_ledger channel w0 inputs :
  ledger w0 inputs (run channel (boot w0) inputs).
Proof.
  induction inputs as [|i inputs IH] using rev_ind.
  - split; [done|]. exists []. cbn. rewrite !app_nil_r. repeat split; [constructor|lia].
  - rewrite run_snoc.
    assert (Hboot : sys_ok channel (published (trace w0)) (popped (trace w0)) (boot w0)).
    { split; [done|]. exists []. cbn. by rewrite !app_nil_r. }
    eapply ledger_step; [|exact IH]. by apply run_ok.
Qed.

(** X10. [LOGGED_IN_EVENT] is a latch: nothing in the module clears it, so
    once it is set it stays set through every run of the watchers and the
    callbacks, whatever the connection does afterwards. *)
Theorem login_flag_is_never_cleared channel w inputs :
  logged_in w = true ->
  logged_in (world (run channel (boot w) inputs)) = true.
Proof. intros Hin. by apply (run_ledger channel w inputs). Qed.

(** X11. The playlist is served first in, first out and nothing is lost or
    served twice: at every point of a run, the uris popped so far followed by
    the uris still on the playlist are the uris the playlist held at the
    start followed by the uris pushed since, and [lpop] never came back
    empty. *)
Theorem playlist_is_served_in_order channel w inputs :
  let s := run channel (boot w) inputs in
  popped (added w (world s)) ++ (Some <$> redis_list PLAYLIST_KEY (world s)) =
    Some <$> (redis_list PLAYLIST_KEY w ++ pushed inputs).
Proof.
  cbv zeta.
  destruct (run_ledger channel w inputs) as (_ & acts & Ht & _ & Hfifo & _).
  by rewrite (added_app _ _ _ Ht).
Qed.

(** X12. Every sleep of a run is a sleep of the queue watcher and lasts
    between 0 and 0.002 seconds. *)
Theorem every_sleep_is_short channel w inputs :
  Forall within_jitter (added w (world (run channel (boot w) inputs))).
Proof.
  destruct (run_ledger channel w inputs) as (_ & acts & Ht & Hj & _).
  by rewrite (added_app _ _ _ Ht).
Qed.

(** X13. One track at a time: in every run the queue watcher has popped at
    most one uri more than END_OF_TRACK was fired, and the tracks it reported
    ended are at most as many as END_OF_TRACK was fired. *)
Theorem one_track_at_a_time channel w inputs :
  let s := run channel (boot w) inputs in
  (length (popped (added w (world s))) <= S (track_ends inputs))%nat /\
  exists us pending,
    published (added w (world s)) = paired us ++ pending /\
    (pending = [] \/ exists u, pending = [play_event u]) /\
    (length us <= track_ends inputs)%nat.
Proof.
  cbv zeta.
  destruct (run_ledger channel w inputs) as (_ & acts & Ht & _ & _ & Hcount).
  assert (Hboot : sys_ok channel (published (trace w)) (popped (trace w)) (boot w)).
  { split; [done|]. exists []. cbn. by rewrite !app_nil_r. }
  destruct (run_ok channel _ _ inputs _ Hboot) as [_ [us Hq]].
  rewrite (added_app _ _ _ Ht). rewrite Ht in Hq.
  rewrite published_app, popped_app in Hq.
  destruct (queue_thread (run channel (boot w) inputs)) as [| |ev k|e].
  - destruct Hq as [Hp Hq]. apply app_inv_head in Hp, Hq. rewrite Hq in *.
    split; [lia|]. exists us, []. rewrite app_nil_r. eauto.
  - destruct Hq as [Hp Hq]. apply app_inv_head in Hp, Hq. rewrite Hq in *.
    split; [lia|]. exists us, []. rewrite app_nil_r. eauto.
  - destruct Hq as (u & _ & _ & Hp & Hq). apply app_inv_head in Hp, Hq.
    rewrite Hq, length_app in *. cbn [length] in *.
    split; [destruct (stop _); lia|]. exists us, [play_event u].
    split; [done|]. split; [eauto|]. destruct (stop _); lia.
  - destruct Hq as (u & Hp & Hq). apply app_inv_head in Hp, Hq.
    rewrite Hq, length_app in *. cbn [length] in *.
    split; [lia|]. exists us, []. rewrite app_nil_r.
    split; [done|]. split; [eauto|]. lia.
Qed.

(** ** Whole turns of the queue watcher *)

(** X14. A track that plays through: with the queue watcher at the head of
    its loop, a uri the backend plays, and an unload that returns, the turn,
    the end of the track and the next turn publish the play message and then
    the end message of that uri, take the uri off the playlist and leave the
    player unloaded.  [STOP_EVENT] is still set afterwards. *)
Theorem track_plays_through channel s u rest l l' :
  queue_thread s = Ready ->
  redis_list PLAYLIST_KEY (world s) = u :: rest ->
  attempt_outcome (Some u) (lib (world s)) = (None, l) ->
  sp_player_unload l = (None, l') ->
  let s' := run channel s [RunQueue; EndOfTrack; RunQueue] in
  queue_thread s' = Ready /\
  published (added (world s) (world s')) =
    [play_event (Some u); end_event (Some u)] /\
  popped (added (world s) (world s')) = [Some u] /\
  redis_list PLAYLIST_KEY (world s') = rest /\
  player_state (world s') = UNLOADED /\
  stop (world s') = true.
Proof.
  intros Hr Hl Ha Hu. cbv zeta. cbn [run fold_left].
  destruct (queue_watcher_body_plays channel _ _ _ _ Hl Ha) as (k & Hb & Hk).
  assert (H1 : step channel s RunQueue =
               mkSys (world_of (queue_watcher_body channel (world s)))
                     (settle (queue_watcher_body channel (world s)))
                     (event_thread s)).
  { cbn [step]. by rewrite Hr. }
  rewrite H1, Hb. cbn [world_of settle].
  cbn [step world queue_thread event_thread].
  rewrite on_track_of_end_run. cbn [lib]. rewrite Hu. cbn [world_of turn is_set stop].
  rewrite Hk, queue_watcher_rest_done.
  cbn [world_of settle world queue_thread event_thread lib player_state
       connection_state logged_in stop redis_lists entropy draws trace].
  split; [done|]. rewrite redis_list_pop.
  erewrite added_app by (cbn [trace]; rewrite <- ?app_assoc; reflexivity).
  done.
Qed.



Lemma ended_queue_watcher_step channel s i e :
  queue_thread s = Dead e ->
  never_parked (event_thread s) ->
  queue_thread (step channel s i) = Dead e /\
  never_parked (event_thread (step channel s i)) /\
  published (trace (world (step channel s i))) = published (trace (world s)) /\
  popped (trace (world (step channel s i))) = popped (trace (world s)).
Proof.
  intros Hd Hnp. destruct i as [|item| |c|uri]; cbn [step].
  - rewrite Hd. cbn [turn world_of settle world queue_thread event_thread]. done.
  - cbn [world queue_thread event_thread].
    assert (Hquiet : quiet (world s)
              (turn (event_watcher_enter channel) (event_watcher_body item)
                    (event_thread s) (world s))).
    { destruct (event_thread s) as [| |ev k|e']; cbn [turn]; [| |done|].
      - unfold event_watcher_enter, bind, log, act. cbn [run_bind].
        apply (quiet_after_emit (Log INFO "Starting Redis Event Loop")); [done..|].
        apply (quiet_after_emit (RedisSubscribe channel)); [done..|].
        apply event_watcher_body_quiet.
      - apply event_watcher_body_quiet.
      - cbn. exists []. by rewrite app_nil_r. }
    destruct (quiet_same _ _ Hquiet) as [Hp Hq].
    split; [done|]. split; [by eapply quiet_settle|]. done.
  - cbn [world queue_thread event_thread]. rewrite on_track_of_end_run.
    destruct (sp_player_unload (lib (world s))) as [[e'|] l]; cbn [world_of trace];
      rewrite published_app, popped_app; cbn; by rewrite !app_nil_r.
  - cbn [world queue_thread event_thread]. rewrite on_connection_state_updated_run.
    destruct (decide _); cbn [world_of trace set_connection_state];
      rewrite ?published_app, ?popped_app; cbn; by rewrite ?app_nil_r.
  - done.
Qed.

(** X16. What a failed play costs: when the uri at the head of the playlist
    fails to resolve, load or play with an error that [play] catches, the
    turn pops the uri, publishes nothing and ends the queue watcher with
    [AttributeError]; from then on, whatever is pushed, delivered or fired,
    nothing is popped and nothing is published any more. *)
Theorem failed_play_stops_the_playlist channel s u rest e l inputs :
  queue_thread s = Ready ->
  never_parked (event_thread s) ->
  redis_list PLAYLIST_KEY (world s) = u :: rest ->
  attempt_outcome (Some u) (lib (world s)) = (Some e, l) ->
  play_catches e = true ->
  let s1 := step channel s RunQueue in
  let s2 := run channel s1 inputs in
  queue_thread s1 = Dead AttributeError /\
  popped (added (world s) (world s1)) = [Some u] /\
  published (added (world s) (world s1)) = [] /\
  queue_thread s2 = Dead AttributeError /\
  popped (trace (world s2)) = popped (trace (world s1)) /\
  published (trace (world s2)) = published (trace (world s1)).
Proof.
  intros Hr Hnp Hl Ha He. cbv zeta.
  destruct (failed_play_ends_the_turn channel _ _ _ _ _ Hl Ha He)
    as (w' & Hb & Hpub & Hpop).
  assert (H1 : step channel s RunQueue = mkSys w' (Dead AttributeError) (event_thread s)).
  { cbn [step]. rewrite Hr. cbn [turn]. by rewrite Hb. }
  rewrite H1. cbn [world queue_thread].
  split; [done|]. split; [done|]. split; [done|].
  assert (Hgen : forall s1,
            queue_thread s1 = Dead AttributeError ->
            never_parked (event_thread s1) ->
            queue_thread (run channel s1 inputs) = Dead AttributeError /\
            popped (trace (world (run channel s1 inputs))) = popped (trace (world s1)) /\
            published (trace (world (run channel s1 inputs))) = published (trace (world s1))).
  { clear. induction inputs as [|i inputs IH]; intros s1 Hd Hnp; [done|].
    cbn [run fold_left].
    destruct (ended_queue_watcher_step channel s1 i _ Hd Hnp) as (Hd' & Hnp' & Hp' & Hq').
    destruct (IH _ Hd' Hnp') as (Hd'' & Hq'' & Hp'').
    unfold run in *. rewrite Hq'', Hp'', Hp', Hq'. done. }
  apply (Hgen (mkSys w' (Dead AttributeError) (event_thread s))); done.
Qed.

(** ** The constructor and the login *)

(** X17. The constructor waits for the login: started before the session is
    logged in, it registers both callbacks and starts the event loop before
    it asks for the login, then blocks in [LOGGED_IN_EVENT.wait()] without
    having installed a sink.  A connection update to any state but LOGGED_IN
    leaves it blocked and adds nothing to the trace; the update to LOGGED_IN
    sets the event, and the constructor then installs the sink and
    returns. *)
Theorem constructor_waits_for_login user password key sink w :
  logged_in w = false ->
  exists w1 k,
    Player_init user password key sink w = Blocked LOGGED_IN_EVENT w1 k /\
    added w w1 =
      [Log DEBUG "Configuring Spotify Session"; ConfigLoadKey key;
       Log DEBUG "Creating Session"; SessionCreate;
       SessionOn CONNECTION_STATE_UPDATED on_connection_state_updated_cb;
       SessionOn END_OF_TRACK on_track_of_end_cb;
       Log DEBUG "Starting Spotify Event Loop"; EventLoopStart;
       Log DEBUG "Waiting for Login to Complete...";
       SessionLogin user password; EventWait LOGGED_IN_EVENT] /\
    (forall c enter body,
       c <> LOGGED_IN ->
       let w2 := world_of (on_connection_state_updated (set_connection_state c w1)) in
       trace w2 = trace w1 /\
       turn enter body (Parked LOGGED_IN_EVENT k) w2 = Blocked LOGGED_IN_EVENT w2 k) /\
    (forall enter body,
       let w2 := world_of (on_connection_state_updated
                             (set_connection_state LOGGED_IN w1)) in
       exists w3,
         turn enter body (Parked LOGGED_IN_EVENT k) w2 = Done tt w3 /\
         added w1 w3 =
           [Log INFO "Login Complete"; EventSet LOGGED_IN_EVENT;
            Log INFO "Settingw Audio Sink to: {0}";
            InstallSink (default FakeSink (sinks !! sink))]).
Proof.
  intros Hout. destruct w as [l p c0 li st r en d tr].
  cbn [logged_in] in Hout. subst li.
  unfold Player_init, register_session_events, event_wait, log, act, bind.
  cbn [run_bind]. open_world. cbn [run_bind].
  do 2 eexists. split; [reflexivity|].
  split; [apply added_app; cbn [trace]; rewrite <- ?app_assoc; reflexivity|].
  split.
  - intros c enter body Hc. cbv zeta.
    rewrite on_connection_state_updated_run. open_world.
    rewrite decide_False by exact Hc.
    cbn [world_of turn]. open_world. done.
  - intros enter body. cbv zeta.
    rewrite on_connection_state_updated_run. open_world.
    rewrite decide_True by reflexivity.
    cbn [world_of turn]. open_world.
    eexists. split; [reflexivity|].
    apply added_app. cbn [trace]. rewrite <- ?app_assoc. reflexivity.
Qed.

End Proofs.

(** * The program on concrete inputs *)

Section Examples.
#[local] Existing Instance small_catalogue.
#[local] Existing Instance json_text.

(** C1. The playlist holds a uri that is no link: [get_track] raises
    [ValueError], which the [except] clause of [play] names; the handler
    raises [AttributeError] before it logs, [play] lets it out, and the queue
    watcher ends there and stays ended. *)
Theorem unresolvable_uri_ends_the_queue_watcher :
  let w := idle_world ["bogus"] in
  let s := step "fm:events" (mkSys w Ready Ready) RunQueue in
  attempt_outcome (Some "bogus") (lib w) = (Some ValueError, None) /\
  play_catches ValueError = true /\
  (exists w', play (Some "bogus") w = Failed AttributeError w' /\
              List.filter is_error_log (added w w') = []) /\
  queue_thread s = Dead AttributeError /\
  queue_thread (step "fm:events" s RunQueue) = Dead AttributeError.
Proof.
  cbv zeta. split; [reflexivity|]. split; [reflexivity|]. split.
  - eexists. split; [vm_compute; reflexivity|]. vm_compute. reflexivity.
  - split; vm_compute; reflexivity.
Qed.

(** C3. After the failed play of the first uri no play message is published:
    the queue watcher has popped the uri, published nothing, and the next uri
    stays on the playlist. *)
Theorem no_play_event_after_failed_play :
  let w := idle_world ["bogus"; "spotify:track:a"] in
  let s := run "fm:events" (mkSys w Ready Ready) [RunQueue; RunQueue] in
  popped (trace (world s)) = [Some "bogus"] /\
  published (trace (world s)) = [] /\
  queue_thread s = Dead AttributeError /\
  redis_list PLAYLIST_KEY (world s) = ["spotify:track:a"].
Proof. vm_compute. done. Qed.

(** A turn on a playlist with one track that plays: the play request is made
    and nothing before it clears [STOP_EVENT]. *)
Lemma stop_event_not_cleared_before_play :
  let w := idle_world ["spotify:track:a"] in
  let w' := world_of (queue_watcher_body "fm:events" w) in
  popped (added w w') = [Some "spotify:track:a"] /\
  PlayerPlay ∈ added w w' /\
  ~ cleared_before_play (added w w').
Proof.
  cbv zeta. split; [vm_compute; reflexivity|]. split.
  - vm_compute. set_solver.
  - intros (pre & post & E & Hin). vm_compute in E.
    revert Hin.
    repeat (destruct pre as [|? pre]; cbn in E;
            [ try discriminate E | first [discriminate E | injection E as <- E] ]).
    clear E. intros Hin.
    repeat (apply elem_of_cons in Hin as [Hin|Hin]; [discriminate Hin|]).
    by apply elem_of_nil in Hin.
Qed.

(** The same turn, action by action. *)
Lemma stop_event_cleared_after_play_witness :
  let w := idle_world ["spotify:track:a"] in
  let w' := world_of (queue_watcher_body "fm:events" w) in
  redis_list PLAYLIST_KEY w = ["spotify:track:a"] /\
  added w w' =
    [RedisLlen PLAYLIST_KEY; RedisLpop PLAYLIST_KEY (Some "spotify:track:a");
     Log DEBUG "Track popped of list: {0}"; Log INFO "Play Track: {0}";
     GetTrack (Some "spotify:track:a"); TrackLoad; PlayerLoad; PlayerPlay;
     Log DEBUG "STOP_EVENT cleared"; EventClear STOP_EVENT;
     Log DEBUG "Publish Play Event";
     RedisPublish "fm:events" (play_event (Some "spotify:track:a"));
     Log DEBUG "Waiting for {0} to Finish"; EventWait STOP_EVENT] /\
  stop w' = false.
Proof.
  split; [reflexivity|].
  exact (stop_event_cleared_after_play "fm:events"
           (idle_world ["spotify:track:a"]) "spotify:track:a" [] eq_refl).
Defined.

(** A track that resolves and cannot be loaded. *)
Lemma play_failure_keeps_state_and_signal_witness :
  let w := idle_world [] in
  load_outcome (Some "spotify:track:unavailable") (lib w) = (Some LibError, None) /\
  exists e' w',
    play (Some "spotify:track:unavailable") w = Failed e' w' /\
    player_state w' = player_state w /\
    stop w' = stop w /\
    exists asked,
      added w w' = Log INFO "Play Track: {0}" :: asked /\
      Forall (fun a => is_backend a = true) asked.
Proof.
  split; [reflexivity|].
  exact (play_failure_keeps_state_and_signal (Some "spotify:track:unavailable")
           (idle_world []) LibError None eq_refl).
Defined.

(** A payload that is no JSON text ends the event watcher: the pause command
    that follows is not carried out, though the same command is when it
    comes first. *)
Lemma invalid_json_ends_the_event_watcher :
  let s := mkSys playing_world Ready Ready in
  let bad := mkItem "message" "not json" in
  let s1 := step "fm:events" s (Deliver bad) in
  let s2 := step "fm:events" s1 (Deliver (mkItem "message" (command "pause"))) in
  json_loads (item_data bad) = inl ValueError /\
  event_thread s1 = Dead ValueError /\
  event_thread s2 = Dead ValueError /\
  requests (added (world s1) (world s2)) = [] /\
  requests (added playing_world
              (world (step "fm:events" s (Deliver (mkItem "message" (command "pause"))))))
    = [PlayerPause].
Proof. vm_compute. done. Qed.

(** An empty JSON object is dropped; a text that is no JSON ends the loop. *)
Lemma malformed_message_handling_witness :
  let s := mkSys playing_world Ready Ready in
  let empty := mkItem "message" "{}" in
  let bad := mkItem "message" "not json" in
  step "fm:events" s (Deliver empty) =
    mkSys (emit (Log DEBUG "Got Event: {0}") playing_world) Ready Ready /\
  step "fm:events" s (Deliver bad) =
    mkSys (emit (Log DEBUG "Got Event: {0}") playing_world) Ready (Dead ValueError).
Proof.
  split.
  - refine (proj1 (malformed_message_handling "fm:events"
                     (mkSys playing_world Ready Ready) (mkItem "message" "{}")
                     eq_refl eq_refl) [] eq_refl _).
    apply not_elem_of_nil.
  - exact (proj2 (malformed_message_handling "fm:events"
                    (mkSys playing_world Ready Ready) (mkItem "message" "not json")
                    eq_refl eq_refl) ValueError eq_refl).
Defined.

(** [pause] and [resume] on a paused and on a playing player. *)
Lemma pause_and_resume_are_guarded_witness :
  (exists w', pause paused_world = Done tt w' /\
              player_state w' = PAUSED /\ requests (added paused_world w') = []) /\
  requests (added playing_world (world_of (pause playing_world))) = [PlayerPause] /\
  (exists w', resume playing_world = Done tt w' /\
              player_state w' = PLAYING /\ requests (added playing_world w') = []) /\
  requests (added paused_world (world_of (resume paused_world))) = [PlayerPlay].
Proof.
  destruct (pause_and_resume_are_guarded paused_world) as (Hp & _ & _ & Hr).
  destruct (pause_and_resume_are_guarded playing_world) as (_ & Hp' & Hr' & _).
  split; [apply Hp; discriminate|]. split; [apply Hp'; reflexivity|].
  split; [apply Hr'; discriminate|]. apply Hr; reflexivity.
Defined.

(** The end of a playing track. *)
Lemma on_track_of_end_unloads_then_sets_witness :
  let w := playing_world in
  let w' := world_of (on_track_of_end w) in
  fst (sp_player_unload (lib w)) = None /\
  on_track_of_end w = Done tt w' /\
  added w w' = [Log DEBUG "Track End - Unloading"; PlayerUnload;
                Log DEBUG "STOP_EVENT set"; EventSet STOP_EVENT] /\
  stop w' = true /\
  forall enter body k, turn enter body (Parked STOP_EVENT k) w' = k w'.
Proof.
  split; [reflexivity|].
  exact (proj2 (on_track_of_end_unloads_then_sets playing_world) eq_refl).
Defined.

(** A turn that popped a track, once the track has ended: it sleeps as well. *)
Lemma queue_watcher_sleeps_after_a_track :
  let w := idle_world ["spotify:track:a"] in
  let s := run "fm:events" (mkSys w Ready Ready) [RunQueue; EndOfTrack; RunQueue] in
  redis_list PLAYLIST_KEY w = ["spotify:track:a"] /\
  queue_thread s = Ready /\
  added w (world s) =
    [RedisLlen PLAYLIST_KEY; RedisLpop PLAYLIST_KEY (Some "spotify:track:a");
     Log DEBUG "Track popped of list: {0}"; Log INFO "Play Track: {0}";
     GetTrack (Some "spotify:track:a"); TrackLoad; PlayerLoad; PlayerPlay;
     Log DEBUG "STOP_EVENT cleared"; EventClear STOP_EVENT;
     Log DEBUG "Publish Play Event";
     RedisPublish "fm:events" (play_event (Some "spotify:track:a"));
     Log DEBUG "Waiting for {0} to Finish"; EventWait STOP_EVENT;
     Log DEBUG "Track End - Unloading"; PlayerUnload;
     Log DEBUG "STOP_EVENT set"; EventSet STOP_EVENT;
     Log DEBUG "Publish Stop Event";
     RedisPublish "fm:events" (end_event (Some "spotify:track:a"));
     Sleep (inject_Z 2 * 0.001)].
Proof. vm_compute. done. Qed.

(** A turn on an empty playlist and a turn on a playlist with one track. *)
Lemma queue_watcher_sleeps_every_turn_witness :
  (exists r w',
     0 <= r <= 2 /\
     queue_watcher_body "fm:events" (idle_world []) = Done tt w' /\
     added (idle_world []) w' = [RedisLlen PLAYLIST_KEY; Sleep (inject_Z r * 0.001)] /\
     redis_lists w' = redis_lists (idle_world [])) /\
  (exists w1 k,
     queue_watcher_body "fm:events" (idle_world ["spotify:track:a"]) =
       Blocked STOP_EVENT w1 k /\
     forall w2, exists r w3,
       0 <= r <= 2 /\
       k w2 = Done tt w3 /\
       added w2 w3 = [Log DEBUG "Publish Stop Event";
                      RedisPublish "fm:events" (end_event (Some "spotify:track:a"));
                      Sleep (inject_Z r * 0.001)]).
Proof.
  split.
  - exact (proj1 (queue_watcher_sleeps_every_turn "fm:events" (idle_world [])) eq_refl).
  - exact (proj2 (queue_watcher_sleeps_every_turn "fm:events"
                    (idle_world ["spotify:track:a"]))
             "spotify:track:a" [] (Some "spotify:track:a") eq_refl eq_refl).
Defined.

(** A sink name the constructor does not know. *)
Lemma unknown_sink_falls_back_to_fake_witness :
  exists cls,
    cls = FakeSink /\
    exists w', Player_init "user" "secret" "spotify.key" "pulse" (idle_world []) = Done tt w' /\
               last (trace w') = Some (InstallSink cls).
Proof.
  destruct (unknown_sink_falls_back_to_fake "user" "secret" "spotify.key" "pulse"
              (idle_world [])) as (cls & _ & _ & Hfake & Hin & _).
  exists cls. split; [apply Hfake; discriminate|]. apply Hin. reflexivity.
Defined.
(** A pause command and a command the watcher does not know. *)
Lemma event_watcher_dispatch_witness :
  event_watcher_body (mkItem "message" (command "pause")) playing_world =
    pause (emit (Log DEBUG "Fire: {0}")
             (emit (Log DEBUG "Got Event: {0}") playing_world)) /\
  event_watcher_body (mkItem "message" (command "stop")) playing_world =
    Done tt (emit (Log DEBUG "Got Event: {0}") playing_world).
Proof.
  split.
  - exact (event_watcher_dispatch (mkItem "message" (command "pause"))
             playing_world [("event", PyStr "pause")] "pause"
             eq_refl eq_refl eq_refl).
  - exact (event_watcher_dispatch (mkItem "message" (command "stop"))
             playing_world [("event", PyStr "stop")] "stop"
             eq_refl eq_refl eq_refl).
Defined.

(** The play message of a track, delivered back to the event watcher. *)
Lemma lifecycle_messages_are_ignored_witness :
  let item := mkItem "message" (lifecycle_text "play" "spotify:track:a") in
  json_loads (item_data item) = inr (play_event (Some "spotify:track:a")) /\
  step "fm:events" (mkSys playing_world Ready Ready) (Deliver item) =
    mkSys (emit (Log DEBUG "Got Event: {0}") playing_world) Ready Ready.
Proof.
  split; [reflexivity|].
  exact (lifecycle_messages_are_ignored "fm:events"
           (mkSys playing_world Ready Ready)
           (mkItem "message" (lifecycle_text "play" "spotify:track:a"))
           (Some "spotify:track:a") eq_refl eq_refl (or_introl eq_refl)).
Defined.

(** A list as payload, and a dict with a list under [event]. *)
Lemma ill_typed_payload_ends_event_watcher_witness :
  let s := mkSys playing_world Ready Ready in
  step "fm:events" s (Deliver (mkItem "message" "[1, 2]")) =
    mkSys (emit (Log DEBUG "Got Event: {0}") playing_world) Ready
          (Dead AttributeError) /\
  step "fm:events" s
       (Deliver (mkItem "message" ("{" ++ Json.quoted "event" ++ ": []}"))) =
    mkSys (emit (Log DEBUG "Got Event: {0}") playing_world) Ready
          (Dead TypeError).
Proof.
  split.
  - refine (proj1 (ill_typed_payload_ends_event_watcher "fm:events"
                     (mkSys playing_world Ready Ready)
                     (mkItem "message" "[1, 2]") (PyList [PyInt 1; PyInt 2])
                     eq_refl eq_refl eq_refl) _).
    discriminate.
  - exact (proj2 (ill_typed_payload_ends_event_watcher "fm:events"
                    (mkSys playing_world Ready Ready)
                    (mkItem "message" ("{" ++ Json.quoted "event" ++ ": []}"))
                    (PyDict [("event", PyList [])])
                    eq_refl eq_refl eq_refl)
             [("event", PyList [])] eq_refl
             (or_introl (ex_intro _ [] eq_refl))).
Defined.

(** A track that resolves, loads and plays. *)
Lemma successful_play_starts_track_and_clears_witness :
  exists w',
    play (Some "spotify:track:a") (idle_world []) = Done tt w' /\
    player_state w' = PLAYING /\
    stop w' = false /\
    lib w' = Some "spotify:track:a" /\
    logged_in w' = true /\
    redis_lists w' = redis_lists (idle_world []) /\
    requests (added (idle_world []) w') =
      [GetTrack (Some "spotify:track:a"); TrackLoad; PlayerLoad; PlayerPlay].
Proof.
  exact (successful_play_starts_track_and_clears (Some "spotify:track:a")
           (idle_world []) (Some "spotify:track:a") eq_refl).
Defined.

(** Pause and resume on a playing track. *)
Lemma pause_then_resume_plays_again_witness :
  exists w',
    (pause;; resume) playing_world = Done tt w' /\
    player_state w' = PLAYING /\
    lib w' = Some "spotify:track:a" /\
    stop w' = stop playing_world /\
    requests (added playing_world w') = [PlayerPause; PlayerPlay].
Proof.
  exact (pause_then_resume_plays_again playing_world
           (Some "spotify:track:a") (Some "spotify:track:a")
           eq_refl eq_refl eq_refl).
Defined.

(** Two pauses on a playing track and two resumes on a paused one. *)
Lemma repeated_pause_or_resume_asks_once_witness :
  (exists w', (pause;; pause) playing_world = Done tt w' /\
              player_state w' = PAUSED /\
              requests (added playing_world w') = [PlayerPause]) /\
  (exists w', (resume;; resume) paused_world = Done tt w' /\
              player_state w' = PLAYING /\
              requests (added paused_world w') = [PlayerPlay]).
Proof.
  split.
  - exact (proj1 (repeated_pause_or_resume_asks_once playing_world
                    (Some "spotify:track:a")) eq_refl eq_refl).
  - exact (proj2 (repeated_pause_or_resume_asks_once paused_world
                    (Some "spotify:track:a")) eq_refl eq_refl).
Defined.

(** A run in which the connection drops after the login. *)
Lemma login_flag_is_never_cleared_witness :
  logged_in (idle_world ["spotify:track:a"]) = true /\
  logged_in (world (run "fm:events" (boot (idle_world ["spotify:track:a"]))
                        [RunQueue; ConnectionUpdate DISCONNECTED; EndOfTrack;
                         ConnectionUpdate LOGGED_OUT; RunQueue])) = true.
Proof.
  split; [reflexivity|].
  exact (login_flag_is_never_cleared "fm:events" (idle_world ["spotify:track:a"])
           [RunQueue; ConnectionUpdate DISCONNECTED; EndOfTrack;
            ConnectionUpdate LOGGED_OUT; RunQueue] eq_refl).
Defined.

(** One track from the playlist to its end message. *)
Lemma track_plays_through_witness :
  let s := mkSys (idle_world ["spotify:track:a"; "spotify:track:b"]) Ready Ready in
  let s' := run "fm:events" s [RunQueue; EndOfTrack; RunQueue] in
  queue_thread s' = Ready /\
  published (added (world s) (world s')) =
    [play_event (Some "spotify:track:a"); end_event (Some "spotify:track:a")] /\
  popped (added (world s) (world s')) = [Some "spotify:track:a"] /\
  redis_list PLAYLIST_KEY (world s') = ["spotify:track:b"] /\
  player_state (world s') = UNLOADED /\
  stop (world s') = true.
Proof.
  exact (track_plays_through "fm:events"
           (mkSys (idle_world ["spotify:track:a"; "spotify:track:b"]) Ready Ready)
           "spotify:track:a" ["spotify:track:b"] (Some "spotify:track:a") None
           eq_refl eq_refl eq_refl eq_refl).
Defined.


(** A uri that is no link, ahead of a track, with a push and a track end
    after the failure. *)
Lemma failed_play_stops_the_playlist_witness :
  let s := mkSys (idle_world ["bogus"; "spotify:track:a"]) Ready Ready in
  let s1 := step "fm:events" s RunQueue in
  let s2 := run "fm:events" s1 [Push "spotify:track:b"; RunQueue; EndOfTrack; RunQueue] in
  queue_thread s1 = Dead AttributeError /\
  popped (added (world s) (world s1)) = [Some "bogus"] /\
  published (added (world s) (world s1)) = [] /\
  queue_thread s2 = Dead AttributeError /\
  popped (trace (world s2)) = popped (trace (world s1)) /\
  published (trace (world s2)) = published (trace (world s1)).
Proof.
  cbv zeta.
  apply (failed_play_stops_the_playlist "fm:events"
           (mkSys (idle_world ["bogus"; "spotify:track:a"]) Ready Ready)
           "bogus" ["spotify:track:a"] ValueError None
           [Push "spotify:track:b"; RunQueue; EndOfTrack; RunQueue]).
  - reflexivity.
  - exact I.
  - vm_compute. reflexivity.
  - vm_compute. reflexivity.
  - reflexivity.
Defined.

(** The constructor started before the login, for the sink name alsa. *)
Lemma constructor_waits_for_login_witness :
  exists w1 k,
    Player_init "user" "secret" "spotify.key" "alsa" logged_out_world =
      Blocked LOGGED_IN_EVENT w1 k /\
    (let w2 := world_of (on_connection_state_updated
                           (set_connection_state OFFLINE w1)) in
     turn (ret tt) (ret tt) (Parked LOGGED_IN_EVENT k) w2 =
       Blocked LOGGED_IN_EVENT w2 k) /\
    (let w2 := world_of (on_connection_state_updated
                           (set_connection_state LOGGED_IN w1)) in
     exists w3,
       turn (ret tt) (ret tt) (Parked LOGGED_IN_EVENT k) w2 = Done tt w3 /\
       added w1 w3 =
         [Log INFO "Login Complete"; EventSet LOGGED_IN_EVENT;
          Log INFO "Settingw Audio Sink to: {0}"; InstallSink AlsaSink]).
Proof.
  destruct (constructor_waits_for_login "user" "secret" "spotify.key" "alsa"
              logged_out_world eq_refl) as (w1 & k & Hb & _ & Hwait & Hgo).
  exists w1, k. split; [exact Hb|]. split.
  - apply (Hwait OFFLINE (ret tt) (ret tt)). discriminate.
  - apply (Hgo (ret tt) (ret tt)).
Defined.

End Examples.

(** * The program on a backend that refuses to play *)

Section Refusals.
#[local] Existing Instance refusing_backend.
#[local] Existing Instance json_text.

(** A pause command while the backend refuses the pause. *)
Lemma refused_pause_ends_event_watcher_witness :
  let s := mkSys refused_world Ready Ready in
  let s' := step "fm:events" s (Deliver (mkItem "message" (command "pause"))) in
  event_thread s' = Dead LibError /\
  player_state (world s') = PLAYING /\
  requests (added (world s) (world s')) = [PlayerPause].
Proof.
  exact (refused_pause_ends_event_watcher "fm:events"
           (mkSys refused_world Ready Ready)
           (mkItem "message" (command "pause")) [("event", PyStr "pause")]
           LibError tt eq_refl eq_refl eq_refl eq_refl eq_refl eq_refl).
Defined.

(** [play(None)]: the backend answers with an error [play] does not catch. *)
Lemma other_errors_pass_through_play_witness :
  exists w',
    play None refused_world = Failed TypeError w' /\
    stop w' = stop refused_world /\
    List.filter is_error_log (added refused_world w') = [].
Proof.
  exact (other_errors_pass_through_play None refused_world TypeError tt
           eq_refl eq_refl).
Defined.

End Refusals.
